(** * io-event: the epoll backend ([ext/event/backend/epoll.c])

    A shallow embedding of the epoll backend of the [event] extension and the
    properties of its registration protocol ([io_wait]), its timeout codec
    ([make_timeout]) and its wait/dispatch loop ([select]).

    The C functions talk to two outside parties: the Linux kernel (through
    [epoll_create], [epoll_ctl], [epoll_wait], [dup], [close] and [errno]) and
    the Ruby VM (through [rb_funcall], [NUM2INT], [rb_update_max_fd]).  Each
    function is embedded as a finite tree of such calls; an oracle answers
    them, and running a tree against an oracle yields the result together with
    the chronological trace of calls.  Statements quantify over every oracle,
    that is over every behaviour of the kernel and of the Ruby code called
    back. *)

From Stdlib Require Import ZArith String List Bool Lia.
From Stdlib Require Import Floats.SpecFloat.
Import ListNotations.

Open Scope string_scope.
Open Scope list_scope.
Open Scope Z_scope.

(** ** C integers *)

Module CInt.

(** Value of a [w]-bit two's complement pattern: the representative of [x]
    modulo [2^w] in [-2^(w-1), 2^(w-1)). *)
Definition wrap (w x : Z) : Z := (x + 2 ^ (w - 1)) mod 2 ^ w - 2 ^ (w - 1).

Definition INT_MIN : Z := - 2 ^ 31.
Definition INT_MAX : Z := 2 ^ 31 - 1.

Definition in_int (x : Z) : bool := (INT_MIN <=? x) && (x <=? INT_MAX).

(** [long] is 64 bits wide and [int] 32 bits wide (LP64 Linux).  Narrowing
    a [long] to an [int] that cannot hold it is implementation-defined; GCC
    and Clang reduce modulo [2^32]. *)
Definition to_long : Z -> Z := wrap 64.
Definition to_int : Z -> Z := wrap 32.

(** [a * b] on [long] operands.  The C standard leaves a signed overflow
    undefined; the product is taken as the 64-bit multiply instruction
    gives it, reduced modulo [2^64]. *)
Definition long_mul (a b : Z) : Z := to_long (a * b).

End CInt.

(** ** C doubles

    A [double] is an IEEE 754 binary64 number: [spec_float] with a 53-bit
    mantissa and [emax = 1024]. *)

Module CDouble.

Definition double : Type := spec_float.

Definition prec : Z := 53.
Definition emax : Z := 1024.

Definition mul : double -> double -> double := SFmul prec emax.

(** Conversion of an integer constant to [double] (exact below [2^53]). *)
Definition of_int (n : Z) : double := binary_normalize prec emax n 0 false.

(** The integral part of a finite [double], fraction discarded. *)
Definition magnitude (m : positive) (e : Z) : Z :=
  match e with
  | Zneg n => Z.shiftr (Zpos m) (Zpos n)
  | _ => Z.shiftl (Zpos m) e
  end.

Definition trunc (d : double) : option Z :=
  match d with
  | S754_zero _ => Some 0
  | S754_finite s m e => Some (cond_Zopp s (magnitude m e))
  | S754_infinity _ | S754_nan => None
  end.

(** The C conversion [(int) d]: truncation toward zero; the behaviour is
    undefined ([None]) when the truncated value does not fit an [int], and
    for infinities and NaN. *)
Definition to_int (d : double) : option Z :=
  match trunc d with
  | Some z => if CInt.in_int z then Some z else None
  | None => None
  end.

End CDouble.

(** ** Ruby values and exceptions *)

Inductive VALUE : Type :=
| Qnil
| Qtrue
| Qfalse
| Fixnum (n : Z)
| Bignum (n : Z)
| Float (d : CDouble.double)
| Object (addr : Z).

(** The two method names interned by [Init_Event_Backend_EPoll]. *)
Inductive ID : Type := id_fileno | id_transfer.

Inductive exception : Type :=
| SystemCallError (code : Z) (func : string)   (* rb_sys_fail(func) *)
| RuntimeError (msg : string)                  (* rb_raise(rb_eRuntimeError, msg) *)
| RangeError                                   (* NUM2INT out of range *)
| RubyError (e : VALUE).                       (* raised by called-back Ruby code *)

(** How a call ends: it returns, it raises (a non-local exit through the
    Ruby VM), or its behaviour is undefined by the C standard. *)
Inductive outcome (A : Type) : Type :=
| Normal (a : A)
| Raised (e : exception)
| Undefined.

Arguments Normal {A} a.
Arguments Raised {A} e.
Arguments Undefined {A}.

(** ** <sys/epoll.h> and <errno.h> (Linux ABI) *)

Record epoll_event : Type := { events : Z; data_ptr : VALUE }.

Definition EPOLLIN : Z := 0x001.
Definition EPOLLPRI : Z := 0x002.
Definition EPOLLOUT : Z := 0x004.
Definition EPOLLRDHUP : Z := 0x2000.
Definition EPOLLONESHOT : Z := 0x40000000.

Definition EPOLL_CTL_ADD : Z := 1.

Definition EEXIST : Z := 17.

(** ** Calls to the kernel and to the Ruby VM *)

Inductive call : Type -> Type :=
| epoll_create (size : Z) : call Z
| epoll_ctl (epfd op fd : Z) (ev : epoll_event) : call Z
| epoll_wait (epfd maxevents timeout : Z) : call (Z * list epoll_event)
| dup (fd : Z) : call Z
| close (fd : Z) : call Z
| errno : call Z
| rb_funcall (recv : VALUE) (mid : ID) : call (VALUE + exception)
| rb_num2int (v : VALUE) : call (Z + exception)
| rb_update_max_fd (fd : Z) : call unit.

(** [epoll_wait] answers with its return value and with the entries it wrote
    to the front of the caller's buffer, in the order it wrote them; [errno]
    is the reading of the thread's error number. *)

(** A method body's calls: it returns, or it makes a call and goes on with
    the answer. *)
Inductive prog (R : Type) : Type :=
| Ret (r : R)
| Vis {X : Type} (c : call X) (k : X -> prog R).

Arguments Ret {R} r.
Arguments Vis {R X} c k.

(** One entry of the history: a call together with its answer. *)
Inductive event : Type :=
| E_epoll_create (size result : Z)
| E_epoll_ctl (epfd op fd : Z) (ev : epoll_event) (result : Z)
| E_epoll_wait (epfd maxevents timeout count : Z) (written : list epoll_event)
| E_dup (fd result : Z)
| E_close (fd result : Z)
| E_errno (code : Z)
| E_funcall (recv : VALUE) (mid : ID) (result : VALUE + exception)
| E_num2int (v : VALUE) (result : Z + exception)
| E_update_max_fd (fd : Z).

Definition Event {X : Type} (c : call X) : X -> event :=
  match c in call X return X -> event with
  | epoll_create size => E_epoll_create size
  | epoll_ctl epfd op fd ev => E_epoll_ctl epfd op fd ev
  | epoll_wait epfd maxevents timeout =>
      fun r => E_epoll_wait epfd maxevents timeout (fst r) (snd r)
  | dup fd => E_dup fd
  | close fd => E_close fd
  | errno => E_errno
  | rb_funcall recv mid => E_funcall recv mid
  | rb_num2int v => E_num2int v
  | rb_update_max_fd fd => fun _ => E_update_max_fd fd
  end.

Definition trace : Type := list event.

(** An oracle answers a call knowing everything that happened before it. *)
Definition OS : Type := forall X : Type, call X -> trace -> X.

Fixpoint run {R : Type} (os : OS) (p : prog R) (t : trace) : R * trace :=
  match p with
  | Ret r => (r, t)
  | Vis c k => let x := os _ c t in run os (k x) (t ++ [Event c x])
  end.

(** *** Observations on traces *)

Definition closed_fd (e : event) : list Z :=
  match e with E_close fd _ => [fd] | _ => [] end.

Definition dup_result (e : event) : list Z :=
  match e with
  | E_dup _ r => if r =? -1 then [] else [r]
  | _ => []
  end.

Definition transferred (e : event) : list VALUE :=
  match e with E_funcall recv id_transfer _ => [recv] | _ => [] end.

Definition ctl_request (e : event) : list (Z * Z * Z * epoll_event) :=
  match e with E_epoll_ctl epfd op fd ev _ => [(epfd, op, fd, ev)] | _ => [] end.

Definition created_fd (e : event) : list Z :=
  match e with
  | E_epoll_create _ r => if r =? -1 then [] else [r]
  | _ => []
  end.

(** Descriptors closed, descriptors obtained from [dup], waiters resumed (or
    loops transferred to), [epoll_ctl] requests issued, queues opened: each
    in chronological order. *)
Definition closes (t : trace) : list Z := flat_map closed_fd t.
Definition dups (t : trace) : list Z := flat_map dup_result t.
Definition transfers (t : trace) : list VALUE := flat_map transferred t.
Definition ctl_requests (t : trace) := flat_map ctl_request t.
Definition created (t : trace) : list Z := flat_map created_fd t.

(** ** The backend object and its monad *)

Record Event_Backend_EPoll : Type := {
  loop : VALUE;
  descriptor : Z
}.

(** A method body: it reads and writes the struct behind [self], calls out,
    and ends in an [outcome]; the struct's final state is kept whatever the
    outcome. *)
Definition M (A : Type) : Type :=
  Event_Backend_EPoll -> prog (outcome A * Event_Backend_EPoll).

Definition ret {A : Type} (a : A) : M A := fun s => Ret (Normal a, s).

Definition raise {A : Type} (e : exception) : M A := fun s => Ret (Raised e, s).

Definition undefined {A : Type} : M A := fun s => Ret (Undefined, s).

Fixpoint prog_bind {R S : Type} (p : prog R) (f : R -> prog S) : prog S :=
  match p with
  | Ret r => f r
  | Vis c k => Vis c (fun x => prog_bind (k x) f)
  end.

Definition bind {A B : Type} (m : M A) (f : A -> M B) : M B :=
  fun s =>
    prog_bind (m s)
      (fun r =>
         match r with
         | (Normal a, s') => f a s'
         | (Raised e, s') => Ret (Raised e, s')
         | (Undefined, s') => Ret (Undefined, s')
         end).

Definition syscall {X : Type} (c : call X) : M X :=
  fun s => Vis c (fun x => Ret (Normal x, s)).

Definition lift {A : Type} (o : outcome A) : M A := fun s => Ret (o, s).

Notation "x <- c1 ;; c2" := (bind c1 (fun x => c2))
  (at level 61, c1 at next level, right associativity).
Notation "' pat <- c1 ;; c2" := (bind c1 (fun x => match x with pat => c2 end))
  (at level 61, pat pattern, c1 at next level, right associativity).
Notation "c1 ;;; c2" := (bind c1 (fun _ => c2))
  (at level 61, right associativity).

(** [data->loop], [data->descriptor] and the assignments to them. *)
Definition get_loop : M VALUE := fun s => Ret (Normal (loop s), s).
Definition get_descriptor : M Z := fun s => Ret (Normal (descriptor s), s).
Definition set_loop (v : VALUE) : M unit :=
  fun s => Ret (Normal tt, {| loop := v; descriptor := descriptor s |}).
Definition set_descriptor (d : Z) : M unit :=
  fun s => Ret (Normal tt, {| loop := loop s; descriptor := d |}).

(** [exec os m s t]: run method body [m] on struct [s] after history [t];
    the result is the outcome, the struct's final state and the history
    extended with the calls [m] made. *)
Definition exec {A : Type} (os : OS) (m : M A) (s : Event_Backend_EPoll)
  (t : trace) : outcome A * Event_Backend_EPoll * trace :=
  run os (m s) t.

(** *** Ruby C API used by the backend *)

(** [rb_sys_fail(func)]: raise the [SystemCallError] of the current [errno]. *)
Definition rb_sys_fail {A : Type} (func : string) : M A :=
  code <- syscall errno ;;
  raise (SystemCallError code func).

(** [rb_funcall(recv, mid, 0)]: the callee returns a value or raises. *)
Definition funcall (recv : VALUE) (mid : ID) : M VALUE :=
  r <- syscall (rb_funcall recv mid) ;;
  match r with
  | inl v => ret v
  | inr e => raise e
  end.

(** [NUM2INT(v)]: a fixnum converts to itself when it fits an [int] and
    raises [RangeError] otherwise; any other value goes through the VM's
    conversion protocol, which returns an [int] or raises. *)
Definition NUM2INT (v : VALUE) : M Z :=
  match v with
  | Fixnum n => if CInt.in_int n then ret n else raise RangeError
  | _ =>
      r <- syscall (rb_num2int v) ;;
      match r with
      | inl n => ret n
      | inr e => raise e
      end
  end.

Definition INT2NUM (n : Z) : VALUE := Fixnum n.

(** ** The backend ([epoll.c]) *)

Definition READABLE : Z := 1.
Definition PRIORITY : Z := 2.
Definition WRITABLE : Z := 4.

Definition EPOLL_MAX_EVENTS : Z := 1024.

(** The memory [TypedData_Make_Struct] hands out is zeroed. *)
Definition zeroed : Event_Backend_EPoll := {| loop := Qfalse; descriptor := 0 |}.

(** [Event_Backend_EPoll_Type_free]: [free(data)] ends the struct's life and
    has no other effect. *)
Definition Event_Backend_EPoll_Type_free : M unit :=
  d <- get_descriptor ;;
  (if d >=? 0 then syscall (close d) ;;; ret tt else ret tt) ;;;
  ret tt.

(** [Event_Backend_EPoll_allocate]; [instance] is the object
    [TypedData_Make_Struct] created around the struct. *)
Definition Event_Backend_EPoll_allocate (instance : VALUE) : M VALUE :=
  set_loop Qnil ;;;
  set_descriptor (-1) ;;;
  ret instance.

Definition Event_Backend_EPoll_initialize (self loop : VALUE) : M VALUE :=
  set_loop loop ;;;
  fd <- syscall (epoll_create 1) ;;
  set_descriptor fd ;;;
  ret self.

(** [if (mask & bit) event.events |= flag;] *)
Definition or_if (mask bit flag ev : Z) : Z :=
  if Z.land mask bit =? 0 then ev else Z.lor ev flag.

(** The value of [event.events] once the mask is translated. *)
Definition event_flags (mask : Z) : Z :=
  let ev := 0 in
  let ev := or_if mask READABLE EPOLLIN ev in
  let ev := or_if mask PRIORITY EPOLLPRI ev in
  let ev := or_if mask WRITABLE EPOLLOUT ev in
  let ev := Z.lor ev EPOLLRDHUP in
  let ev := Z.lor ev EPOLLONESHOT in
  ev.

(** [TypedData_Get_Struct] yields the struct behind [self]: the state the
    monad threads. *)
Definition Event_Backend_EPoll_io_wait (self fiber io events : VALUE) : M VALUE :=
  fileno <- funcall io id_fileno ;;
  descriptor <- NUM2INT fileno ;;
  let duplicate := -1 in
  mask <- NUM2INT events ;;
  let event := {| events := event_flags mask; data_ptr := fiber |} in
  epfd <- get_descriptor ;;
  result <- syscall (epoll_ctl epfd EPOLL_CTL_ADD descriptor event) ;;
  (* result == -1 && errno == EEXIST *)
  conflict <- (if result =? -1
               then code <- syscall errno ;; ret (code =? EEXIST)
               else ret false) ;;
  '(descriptor, duplicate, result) <-
    (if conflict : bool then
       (* The file descriptor was already inserted into epoll. *)
       d <- syscall (dup descriptor) ;;
       let descriptor := d in
       let duplicate := d in
       syscall (rb_update_max_fd duplicate) ;;;
       (if descriptor =? -1 then rb_sys_fail "dup" else ret tt) ;;;
       epfd <- get_descriptor ;;
       result <- syscall (epoll_ctl epfd EPOLL_CTL_ADD descriptor event) ;;
       ret (descriptor, duplicate, result)
     else ret (descriptor, duplicate, result)) ;;
  (if result =? -1 then rb_sys_fail "epoll_ctl" else ret tt) ;;;
  loop <- get_loop ;;
  funcall loop id_transfer ;;;
  (if duplicate >=? 0 then syscall (close duplicate) ;;; ret tt else ret tt) ;;;
  ret Qnil.

(** [make_timeout] has no effect but its result; [FIXNUM_P] holds of
    [Fixnum] only, [RB_FLOAT_TYPE_P] of [Float] only, and [NUM2LONG] of a
    fixnum is its value. *)
Definition make_timeout (duration : VALUE) : outcome Z :=
  match duration with
  | Qnil => Normal (-1)
  | Fixnum n => Normal (CInt.to_int (CInt.long_mul n 1000))
  | Float value =>
      match CDouble.to_int (CDouble.mul value (CDouble.of_int 1000)) with
      | Some ms => Normal ms
      | None => Undefined
      end
  | _ => Raised (RuntimeError "unable to convert timeout")
  end.

(** [for (int i = 0; i < count; i += 1)]: [n] iterations are left to run and
    [i] is the index of the next one.  [events[i]] beyond what [epoll_wait]
    wrote is uninitialised memory. *)
Fixpoint resume_events (events : list epoll_event) (i n : nat) : M unit :=
  match n with
  | O => ret tt
  | S n' =>
      match nth_error events i with
      | Some ev =>
          let fiber := data_ptr ev in
          funcall fiber id_transfer ;;;
          resume_events events (S i) n'
      | None => undefined
      end
  end.

Definition Event_Backend_EPoll_select (self duration : VALUE) : M VALUE :=
  epfd <- get_descriptor ;;
  timeout <- lift (make_timeout duration) ;;
  '(count, events) <- syscall (epoll_wait epfd EPOLL_MAX_EVENTS timeout) ;;
  (if count =? -1 then rb_sys_fail "epoll_wait" else ret tt) ;;;
  resume_events events 0 (Z.to_nat count) ;;;
  ret (INT2NUM count).

(** ** Method calls over a backend's life *)

Inductive method_call : Type :=
| Initialize (self loop : VALUE)
| IoWait (self fiber io events : VALUE)
| Select (self duration : VALUE).

Definition perform (c : method_call) : M VALUE :=
  match c with
  | Initialize self loop => Event_Backend_EPoll_initialize self loop
  | IoWait self fiber io events => Event_Backend_EPoll_io_wait self fiber io events
  | Select self duration => Event_Backend_EPoll_select self duration
  end.

(** The methods called one after the other on the same struct; a call that
    raises is rescued by its caller and the next one goes ahead. *)
Fixpoint lifetime (os : OS) (cs : list method_call) (s : Event_Backend_EPoll)
  (t : trace) : Event_Backend_EPoll * trace :=
  match cs with
  | [] => (s, t)
  | c :: cs' =>
      let '(_, s', t') := exec os (perform c) s t in
      lifetime os cs' s' t'
  end.

(** ** What the kernel promises (man pages) *)

(** [epoll_create] returns a non-negative descriptor, or -1. *)
Definition epoll_create_contract (os : OS) : Prop :=
  forall size t, os _ (epoll_create size) t = -1 \/ 0 <= os _ (epoll_create size) t.

(** [epoll_wait] returns -1, or the number of entries it wrote, which is at
    most [maxevents]. *)
Definition epoll_wait_contract (os : OS) : Prop :=
  forall epfd maxevents timeout t,
    let r := os _ (epoll_wait epfd maxevents timeout) t in
    fst r = -1 \/ (0 <= fst r <= maxevents /\ Z.of_nat (length (snd r)) = fst r).

(** ** Concrete kernels *)

Module Scenario.

Definition EMFILE : Z := 24.
Definition ENOMEM : Z := 12.

(** A kernel and VM given by: the answer of [epoll_create]; the answer of
    [epoll_ctl] per descriptor; [errno] per history; the answer of [dup];
    the entries [epoll_wait] delivers.  Every [fileno] is 5 and every
    [transfer] returns [nil]. *)
Definition scripted (created : Z) (ctl : Z -> Z) (err : trace -> Z) (dupfd : Z)
  (ready : list epoll_event) : OS :=
  fun X c t =>
    match c in call X return X with
    | epoll_create _ => created
    | epoll_ctl _ _ fd _ => ctl fd
    | epoll_wait _ maxevents _ =>
        if maxevents <=? 0 then (-1, [])
        else
          let written := firstn (Z.to_nat maxevents) ready in
          (Z.of_nat (length written), written)
    | dup _ => dupfd
    | close _ => 0
    | errno => err t
    | rb_funcall _ id_fileno => inl (Fixnum 5)
    | rb_funcall _ id_transfer => inl Qnil
    | rb_num2int _ => inl 0
    | rb_update_max_fd _ => tt
    end.

(** Nothing goes wrong and nothing is ready. *)
Definition quiet : OS := scripted 3 (fun _ => 0) (fun _ => 0) 7 [].

(** The kernel refuses to open a queue. *)
Definition denied : OS := scripted (-1) (fun _ => 0) (fun _ => EMFILE) 7 [].

(** Descriptor 5 is already in the queue; its duplicate 7 is not. *)
Definition conflict : OS :=
  scripted 3 (fun fd => if fd =? 5 then -1 else 0) (fun _ => EEXIST) 7 [].

(** Descriptor 5 is already in the queue, and so is the number [dup]
    hands out. *)
Definition conflict_again : OS :=
  scripted 3 (fun _ => -1) (fun _ => EEXIST) 7 [].

(** Descriptor 5 is already in the queue and the kernel is out of memory
    when the duplicate is added. *)
Definition retry_fails : OS :=
  scripted 3 (fun _ => -1)
    (fun t => if (length (ctl_requests t) <=? 1)%nat then EEXIST else ENOMEM) 7 [].

(** Descriptor 5 is already in the queue and no descriptor is left. *)
Definition dup_fails : OS :=
  scripted 3 (fun _ => -1)
    (fun t =>
       if existsb (fun e => match e with E_dup _ _ => true | _ => false end) t
       then EMFILE else EEXIST)
    (-1) [].

Definition fiber_a : VALUE := Object 10.
Definition fiber_b : VALUE := Object 11.
Definition io : VALUE := Object 20.
Definition backend : VALUE := Object 30.
Definition scheduler : VALUE := Object 31.

(** Two waiters are ready, [fiber_b] first. *)
Definition two_ready : OS :=
  scripted 3 (fun _ => 0) (fun _ => 0) 7
    [ {| events := EPOLLIN; data_ptr := fiber_b |};
      {| events := EPOLLOUT; data_ptr := fiber_a |} ].

Definition ready_struct : Event_Backend_EPoll :=
  {| loop := scheduler; descriptor := 3 |}.

(** [fiber_a] waits for [io] to become readable. *)
Definition wait_a : M VALUE :=
  Event_Backend_EPoll_io_wait backend fiber_a io (Fixnum READABLE).

Definition readable_a : epoll_event :=
  {| events := event_flags READABLE; data_ptr := fiber_a |}.

End Scenario.

(** ** Vocabulary of the specification *)

(** The shapes of duration the timeout codec recognises. *)
Definition is_nil (v : VALUE) : bool :=
  match v with Qnil => true | _ => false end.
Definition is_fixnum (v : VALUE) : bool :=
  match v with Fixnum _ => true | _ => false end.
Definition is_integer (v : VALUE) : bool :=
  match v with Fixnum _ | Bignum _ => true | _ => false end.
Definition is_float (v : VALUE) : bool :=
  match v with Float _ => true | _ => false end.

(** The error kinds of the specification, as the code raises them. *)
Definition InvalidTimeout : exception := RuntimeError "unable to convert timeout".
Definition SystemCallFailure (code : Z) (operation : string) : exception :=
  SystemCallError code operation.

(** A method body leaves the struct as it found it. *)
Definition preserves_struct {A : Type} (m : M A) : Prop :=
  forall os s t, snd (fst (exec os m s t)) = s.

(** *** The runs of [io_wait]

    What one call of [io_wait] can add to the history, and how it ends.
    [converts v o l]: [NUM2INT(v)] ends in [o] after the calls [l]. *)
Inductive converts : VALUE -> outcome Z -> list event -> Prop :=
| conv_fixnum n :
    CInt.in_int n = true -> converts (Fixnum n) (Normal n) []
| conv_range n :
    CInt.in_int n = false -> converts (Fixnum n) (Raised RangeError) []
| conv_vm v n :
    is_fixnum v = false -> converts v (Normal n) [E_num2int v (inl n)]
| conv_vm_raised v e :
    is_fixnum v = false -> converts v (Raised e) [E_num2int v (inr e)].

(** [recovery epfd fd ev lp o l]: the first add of [fd] met EEXIST; the call
    then ends in [o] after the calls [l]. *)
Inductive recovery (epfd fd : Z) (ev : epoll_event) (lp : VALUE)
  : outcome VALUE -> list event -> Prop :=
| dup_failed code :
    recovery epfd fd ev lp
      (Raised (SystemCallError code "dup"))
      [E_dup fd (-1); E_update_max_fd (-1); E_errno code]
| retry_failed d code :
    d <> -1 ->
    recovery epfd fd ev lp
      (Raised (SystemCallError code "epoll_ctl"))
      [E_dup fd d; E_update_max_fd d;
       E_epoll_ctl epfd EPOLL_CTL_ADD d ev (-1); E_errno code]
| retry_interrupted d r e :
    d <> -1 -> r <> -1 ->
    recovery epfd fd ev lp
      (Raised e)
      [E_dup fd d; E_update_max_fd d;
       E_epoll_ctl epfd EPOLL_CTL_ADD d ev r; E_funcall lp id_transfer (inr e)]
| retry_resumed d r v c :
    0 <= d -> r <> -1 ->
    recovery epfd fd ev lp
      (Normal Qnil)
      [E_dup fd d; E_update_max_fd d;
       E_epoll_ctl epfd EPOLL_CTL_ADD d ev r; E_funcall lp id_transfer (inl v);
       E_close d c]
| retry_resumed_unclosed d r v :
    d < -1 -> r <> -1 ->
    recovery epfd fd ev lp
      (Normal Qnil)
      [E_dup fd d; E_update_max_fd d;
       E_epoll_ctl epfd EPOLL_CTL_ADD d ev r; E_funcall lp id_transfer (inl v)].

(** [registration epfd fd ev lp o l]: from the first [epoll_ctl] on. *)
Inductive registration (epfd fd : Z) (ev : epoll_event) (lp : VALUE)
  : outcome VALUE -> list event -> Prop :=
| add_resumed r v :
    r <> -1 ->
    registration epfd fd ev lp
      (Normal Qnil)
      [E_epoll_ctl epfd EPOLL_CTL_ADD fd ev r; E_funcall lp id_transfer (inl v)]
| add_interrupted r e :
    r <> -1 ->
    registration epfd fd ev lp
      (Raised e)
      [E_epoll_ctl epfd EPOLL_CTL_ADD fd ev r; E_funcall lp id_transfer (inr e)]
| add_failed code code' :
    code <> EEXIST ->
    registration epfd fd ev lp
      (Raised (SystemCallError code' "epoll_ctl"))
      [E_epoll_ctl epfd EPOLL_CTL_ADD fd ev (-1); E_errno code; E_errno code']
| add_conflict o l :
    recovery epfd fd ev lp o l ->
    registration epfd fd ev lp o
      (E_epoll_ctl epfd EPOLL_CTL_ADD fd ev (-1) :: E_errno EEXIST :: l).

Inductive io_wait_run (s : Event_Backend_EPoll) (fiber io events : VALUE)
  : outcome VALUE -> list event -> Prop :=
| fileno_raised e :
    io_wait_run s fiber io events (Raised e) [E_funcall io id_fileno (inr e)]
| fileno_unconverted v e l :
    converts v (Raised e) l ->
    io_wait_run s fiber io events (Raised e) (E_funcall io id_fileno (inl v) :: l)
| mask_unconverted v fd l1 e l2 :
    converts v (Normal fd) l1 ->
    converts events (Raised e) l2 ->
    io_wait_run s fiber io events (Raised e)
      (E_funcall io id_fileno (inl v) :: l1 ++ l2)
| registering v fd l1 mask l2 o l :
    converts v (Normal fd) l1 ->
    converts events (Normal mask) l2 ->
    registration (descriptor s) fd
      {| events := event_flags mask; data_ptr := fiber |} (loop s) o l ->
    io_wait_run s fiber io events o
      (E_funcall io id_fileno (inl v) :: l1 ++ l2 ++ l).

(** The first [epoll_ctl] of a stretch of history: its request, its answer,
    and what followed it. *)
Fixpoint first_add (l : list event)
  : option (Z * Z * Z * epoll_event * Z * list event) :=
  match l with
  | [] => None
  | E_epoll_ctl epfd op fd ev r :: rest => Some (epfd, op, fd, ev, r, rest)
  | _ :: l' => first_add l'
  end.

(** The call ends in a failure of a native call. *)
Definition surfaces_failure {A : Type} (o : outcome A) : Prop :=
  exists code operation, o = Raised (SystemCallFailure code operation).

(** [mask] has the bit [bit]. *)
Definition has_bit (mask bit : Z) : bool := negb (Z.land mask bit =? 0).

(** [resumes written resumed]: the stretch of history [resumed] consists of
    one [transfer] into the waiter of each entry of [written], in order, each
    of which returned. *)
Definition resumes (written : list epoll_event) (resumed : list event) : Prop :=
  Forall2 (fun ev e => exists r, e = E_funcall (data_ptr ev) id_transfer (inl r))
    written resumed.

(** The queue handle is the closed sentinel, or a descriptor that a
    successful [epoll_create] of the history [t] returned. *)
Definition handle_ok (s : Event_Backend_EPoll) (t : trace) : Prop :=
  descriptor s = -1 \/ (0 <= descriptor s /\ In (descriptor s) (created t)).

(** The double [N.5], of value [N + 1/2]: the binary64 number nearest to
    [(2 * N + 1) / 2], which is that number itself when [2 * N + 1] has at
    most 53 bits. *)
Definition half_past (N : Z) : CDouble.double :=
  binary_normalize CDouble.prec CDouble.emax (2 * N + 1) (-1) false.

(** A method body closes nothing, or nothing but descriptors [dup] gave it. *)
Definition closes_nothing {A : Type} (m : M A) : Prop :=
  forall os s t, exists l, snd (exec os m s t) = t ++ l /\ closes l = [].

Definition closes_only_duplicates {A : Type} (m : M A) : Prop :=
  forall os s t, exists l, snd (exec os m s t) = t ++ l /\ incl (closes l) (dups l).

Definition is_close {X : Type} (c : call X) : bool :=
  match c with close _ => true | _ => false end.

(** ** More vocabulary: the runs of [select], registrations, kernels *)

(** [dispatch written i n o l]: the resume loop of [select], [n] iterations
    from index [i] over the buffer [written], ends in [o] after the calls
    [l]. *)
Inductive dispatch (written : list epoll_event)
  : nat -> nat -> outcome unit -> list event -> Prop :=
| dispatch_done i :
    dispatch written i 0 (Normal tt) []
| dispatch_unwritten i n :
    nth_error written i = None ->
    dispatch written i (S n) Undefined []
| dispatch_raised i n ev e :
    nth_error written i = Some ev ->
    dispatch written i (S n) (Raised e)
      [E_funcall (data_ptr ev) id_transfer (inr e)]
| dispatch_next i n ev v o l :
    nth_error written i = Some ev ->
    dispatch written (S i) n o l ->
    dispatch written i (S n) o (E_funcall (data_ptr ev) id_transfer (inl v) :: l).

(** [select_run s duration o l]: what one call of [select] adds to the
    history, and how it ends. *)
Inductive select_run (s : Event_Backend_EPoll) (duration : VALUE)
  : outcome VALUE -> list event -> Prop :=
| timeout_raised e :
    make_timeout duration = Raised e ->
    select_run s duration (Raised e) []
| timeout_undefined :
    make_timeout duration = Undefined ->
    select_run s duration Undefined []
| wait_failed timeout written code :
    make_timeout duration = Normal timeout ->
    select_run s duration
      (Raised (SystemCallError code "epoll_wait"))
      [E_epoll_wait (descriptor s) EPOLL_MAX_EVENTS timeout (-1) written;
       E_errno code]
| dispatched_all timeout k written l :
    make_timeout duration = Normal timeout ->
    k <> -1 ->
    dispatch written 0 (Z.to_nat k) (Normal tt) l ->
    select_run s duration (Normal (INT2NUM k))
      (E_epoll_wait (descriptor s) EPOLL_MAX_EVENTS timeout k written :: l)
| dispatch_aborted timeout k written e l :
    make_timeout duration = Normal timeout ->
    k <> -1 ->
    dispatch written 0 (Z.to_nat k) (Raised e) l ->
    select_run s duration (Raised e)
      (E_epoll_wait (descriptor s) EPOLL_MAX_EVENTS timeout k written :: l)
| dispatch_undefined timeout k written l :
    make_timeout duration = Normal timeout ->
    k <> -1 ->
    dispatch written 0 (Z.to_nat k) Undefined l ->
    select_run s duration Undefined
      (E_epoll_wait (descriptor s) EPOLL_MAX_EVENTS timeout k written :: l).

(** The entries the queue accepted: the events of the adds that did not
    fail, in chronological order. *)
Definition registered_event (e : event) : list epoll_event :=
  match e with
  | E_epoll_ctl _ _ _ ev r => if r =? -1 then [] else [ev]
  | _ => []
  end.

Definition registered (t : trace) : list epoll_event := flat_map registered_event t.

(** The waits issued: descriptor, capacity, timeout and answer. *)
Definition wait_event (e : event) : list (Z * Z * Z * Z) :=
  match e with
  | E_epoll_wait epfd maxevents timeout k _ => [(epfd, maxevents, timeout, k)]
  | _ => []
  end.

Definition waits (t : trace) : list (Z * Z * Z * Z) := flat_map wait_event t.

(** The readings of [errno]. *)
Definition errno_event (e : event) : list Z :=
  match e with E_errno code => [code] | _ => [] end.

Definition errno_reads (t : trace) : list Z := flat_map errno_event t.

(** A stretch of history without kernel calls and without transfers. *)
Definition silent (l : list event) : Prop :=
  ctl_requests l = [] /\ registered l = [] /\ dups l = [] /\ closes l = []
  /\ transfers l = [] /\ errno_reads l = [] /\ waits l = [].

(** What the queue promises about payloads: an entry it delivers carries the
    payload of an entry it accepted earlier. *)
Definition delivers_registered (os : OS) : Prop :=
  forall epfd maxevents timeout t w,
    In w (snd (os _ (epoll_wait epfd maxevents timeout) t)) ->
    exists ev, In ev (registered t) /\ data_ptr w = data_ptr ev.

(** The waiters handed to [io_wait] and the loops a struct has had, over a
    sequence of method calls. *)
Definition waiters (cs : list method_call) : list VALUE :=
  flat_map (fun c => match c with IoWait _ fiber _ _ => [fiber] | _ => [] end) cs.

Definition loops (s : Event_Backend_EPoll) (cs : list method_call) : list VALUE :=
  loop s :: flat_map (fun c => match c with Initialize _ l => [l] | _ => [] end) cs.

(** Every payload the queue accepted is a waiter of [W]; every transfer made
    went into a waiter of [W] or a loop of [L]; the struct's loop is in [L]. *)
Definition resumes_known (W L : list VALUE) (s : Event_Backend_EPoll) (t : trace)
  : Prop :=
  In (loop s) L
  /\ Forall (fun ev => In (data_ptr ev) W) (registered t)
  /\ Forall (fun v => In v W \/ In v L) (transfers t).

Definition no_initialize (cs : list method_call) : bool :=
  forallb (fun c => match c with Initialize _ _ => false | _ => true end) cs.


(** The double of value [n / 8]: the binary64 number nearest to
    [n * 2^-3], which is that number itself when [n] has at most 53 bits. *)
Definition eighths (n : Z) : CDouble.double :=
  binary_normalize CDouble.prec CDouble.emax n (-3) false.

(** ** More kernels *)

Module Kernel.

Definition EINTR : Z := 4.
Definition EBADF : Z := 9.

(** [kernel], with the Ruby side answering [transfer] by [resume]. *)
Definition with_transfer (kernel : OS) (resume : VALUE -> VALUE + exception) : OS :=
  fun X c t =>
    match c in call X return X with
    | epoll_create size => kernel _ (epoll_create size) t
    | epoll_ctl epfd op fd ev => kernel _ (epoll_ctl epfd op fd ev) t
    | epoll_wait epfd maxevents timeout => kernel _ (epoll_wait epfd maxevents timeout) t
    | dup fd => kernel _ (dup fd) t
    | close fd => kernel _ (close fd) t
    | errno => kernel _ errno t
    | rb_funcall recv id_fileno => kernel _ (rb_funcall recv id_fileno) t
    | rb_funcall recv id_transfer => resume recv
    | rb_num2int v => kernel _ (rb_num2int v) t
    | rb_update_max_fd fd => kernel _ (rb_update_max_fd fd) t
    end.

(** [kernel], with every [epoll_wait] interrupted by a signal. *)
Definition interrupted : OS :=
  fun X c t =>
    match c in call X return X with
    | epoll_create size => Scenario.quiet _ (epoll_create size) t
    | epoll_ctl epfd op fd ev => Scenario.quiet _ (epoll_ctl epfd op fd ev) t
    | epoll_wait epfd maxevents timeout => (-1, [])
    | dup fd => Scenario.quiet _ (dup fd) t
    | close fd => Scenario.quiet _ (close fd) t
    | errno => EINTR
    | rb_funcall recv mid => Scenario.quiet _ (rb_funcall recv mid) t
    | rb_num2int v => Scenario.quiet _ (rb_num2int v) t
    | rb_update_max_fd fd => Scenario.quiet _ (rb_update_max_fd fd) t
    end.

(** The queue descriptor is not valid: every add fails with EBADF. *)
Definition bad_queue : OS :=
  Scenario.scripted (-1) (fun _ => -1) (fun _ => EBADF) 7 [].

(** Two waiters are ready and the first one resumed raises. *)
Definition failure : exception := RubyError (Object 99).

Definition first_raises : OS :=
  with_transfer Scenario.two_ready
    (fun recv => match recv with Object 11 => inr failure | _ => inl Qnil end).

(** A queue that reports every accepted entry as ready at each wait, and
    hands out a new descriptor at each [epoll_create]. *)
Definition echo : OS :=
  fun X c t =>
    match c in call X return X with
    | epoll_create size => 3 + Z.of_nat (length (created t))
    | epoll_ctl epfd op fd ev => 0
    | epoll_wait epfd maxevents timeout =>
        if maxevents <=? 0 then (-1, [])
        else
          let written := firstn (Z.to_nat maxevents) (registered t) in
          (Z.of_nat (length written), written)
    | dup fd => 7
    | close fd => 0
    | errno => 0
    | rb_funcall recv id_fileno => inl (Fixnum 5)
    | rb_funcall recv id_transfer => inl Qnil
    | rb_num2int v => inl 0
    | rb_update_max_fd fd => tt
    end.

End Kernel.

(** * Properties *)

(** ** Running method bodies *)

Lemma run_prog_bind {R S : Type} (os : OS) (p : prog R) (f : R -> prog S) :
  forall t, run os (prog_bind p f) t = run os (f (fst (run os p t))) (snd (run os p t)).
Proof.
  induction p as [r | X c k IH]; intro t; simpl.
  - reflexivity.
  - apply IH.
Qed.

Lemma run_extends {R : Type} (os : OS) (p : prog R) :
  forall t, exists t', snd (run os p t) = t ++ t'.
Proof.
  induction p as [r | X c k IH]; intro t; simpl.
  - exists []. now rewrite app_nil_r.
  - destruct (IH (os X c t) (t ++ [Event c (os X c t)])) as [t' Ht'].
    exists (Event c (os X c t) :: t'). rewrite Ht', <- app_assoc. reflexivity.
Qed.

Section Exec.

Variable os : OS.
Variables (s : Event_Backend_EPoll) (t : trace).

Lemma exec_ret {A} (a : A) : exec os (ret a) s t = (Normal a, s, t).
Proof. reflexivity. Qed.

Lemma exec_raise {A} (e : exception) : exec os (@raise A e) s t = (Raised e, s, t).
Proof. reflexivity. Qed.

Lemma exec_undefined {A} : exec os (@undefined A) s t = (Undefined, s, t).
Proof. reflexivity. Qed.

Lemma exec_lift {A} (o : outcome A) : exec os (lift o) s t = (o, s, t).
Proof. reflexivity. Qed.

Lemma exec_syscall {X} (c : call X) :
  exec os (syscall c) s t = (Normal (os X c t), s, t ++ [Event c (os X c t)]).
Proof. reflexivity. Qed.

Lemma exec_get_loop : exec os get_loop s t = (Normal (loop s), s, t).
Proof. reflexivity. Qed.

Lemma exec_get_descriptor : exec os get_descriptor s t = (Normal (descriptor s), s, t).
Proof. reflexivity. Qed.

Lemma exec_set_loop v :
  exec os (set_loop v) s t = (Normal tt, {| loop := v; descriptor := descriptor s |}, t).
Proof. reflexivity. Qed.

Lemma exec_set_descriptor d :
  exec os (set_descriptor d) s t = (Normal tt, {| loop := loop s; descriptor := d |}, t).
Proof. reflexivity. Qed.

Lemma exec_bind {A B} (m : M A) (f : A -> M B) :
  exec os (bind m f) s t =
    match exec os m s t with
    | (Normal a, s', t') => exec os (f a) s' t'
    | (Raised e, s', t') => (Raised e, s', t')
    | (Undefined, s', t') => (Undefined, s', t')
    end.
Proof.
  unfold exec, bind. rewrite run_prog_bind.
  destruct (run os (m s) t) as [[[a | e |] s'] t']; reflexivity.
Qed.

Lemma exec_rb_sys_fail {A} (func : string) :
  exec os (@rb_sys_fail A func) s t
  = (Raised (SystemCallError (os Z errno t) func), s, t ++ [E_errno (os Z errno t)]).
Proof. reflexivity. Qed.

Lemma exec_funcall recv mid :
  exec os (funcall recv mid) s t =
    (match os _ (rb_funcall recv mid) t with inl v => Normal v | inr e => Raised e end,
     s, t ++ [E_funcall recv mid (os _ (rb_funcall recv mid) t)]).
Proof.
  unfold funcall. rewrite exec_bind, exec_syscall.
  destruct (os _ (rb_funcall recv mid) t); reflexivity.
Qed.

Lemma exec_NUM2INT_fixnum n :
  CInt.in_int n = true -> exec os (NUM2INT (Fixnum n)) s t = (Normal n, s, t).
Proof. intro H. simpl. rewrite H. reflexivity. Qed.

End Exec.

Create Rewrite HintDb exec.
#[local] Hint Rewrite @exec_bind @exec_ret @exec_raise @exec_undefined @exec_lift
  @exec_syscall @exec_get_loop @exec_get_descriptor @exec_set_loop
  @exec_set_descriptor @exec_rb_sys_fail @exec_funcall : exec.

Ltac exec_simpl := repeat (autorewrite with exec; cbv beta iota).

(** ** Frame: which method bodies leave the struct alone *)

Lemma preserves_ret {A} (a : A) : preserves_struct (ret a).
Proof. intros os s t. reflexivity. Qed.

Lemma preserves_raise {A} e : preserves_struct (@raise A e).
Proof. intros os s t. reflexivity. Qed.

Lemma preserves_undefined {A} : preserves_struct (@undefined A).
Proof. intros os s t. reflexivity. Qed.

Lemma preserves_lift {A} (o : outcome A) : preserves_struct (lift o).
Proof. intros os s t. reflexivity. Qed.

Lemma preserves_syscall {X} (c : call X) : preserves_struct (syscall c).
Proof. intros os s t. reflexivity. Qed.

Lemma preserves_get_loop : preserves_struct get_loop.
Proof. intros os s t. reflexivity. Qed.

Lemma preserves_get_descriptor : preserves_struct get_descriptor.
Proof. intros os s t. reflexivity. Qed.

Lemma preserves_bind {A B} (m : M A) (f : A -> M B) :
  preserves_struct m -> (forall a, preserves_struct (f a)) -> preserves_struct (bind m f).
Proof.
  intros Hm Hf os s t. rewrite exec_bind.
  specialize (Hm os s t).
  destruct (exec os m s t) as [[[a | e |] s'] t']; simpl in *; subst s'; auto.
  apply Hf.
Qed.

Lemma preserves_if {A} (b : bool) (m1 m2 : M A) :
  preserves_struct m1 -> preserves_struct m2 -> preserves_struct (if b then m1 else m2).
Proof. destruct b; auto. Qed.

Lemma preserves_rb_sys_fail {A} func : preserves_struct (@rb_sys_fail A func).
Proof. intros os s t. reflexivity. Qed.

Lemma preserves_funcall recv mid : preserves_struct (funcall recv mid).
Proof.
  apply preserves_bind; [apply preserves_syscall |].
  intros [v | e]; [apply preserves_ret | apply preserves_raise].
Qed.

Lemma preserves_NUM2INT v : preserves_struct (NUM2INT v).
Proof.
  destruct v; simpl;
    try (apply preserves_bind; [apply preserves_syscall |];
         intros [n' | e]; [apply preserves_ret | apply preserves_raise]).
  apply preserves_if; [apply preserves_ret | apply preserves_raise].
Qed.

Create HintDb frame.
#[local] Hint Resolve preserves_ret preserves_raise preserves_undefined preserves_lift
  preserves_syscall preserves_get_loop preserves_get_descriptor preserves_if
  preserves_rb_sys_fail preserves_funcall preserves_NUM2INT : frame.

Ltac frame :=
  repeat first
    [ progress intros
    | apply preserves_bind
    | apply preserves_if
    | match goal with
      | |- preserves_struct (match ?x with _ => _ end) => destruct x
      end
    | solve [auto with frame] ].

Lemma preserves_resume_events evs : forall n i, preserves_struct (resume_events evs i n).
Proof.
  induction n as [| n IH]; intro i; simpl.
  - apply preserves_ret.
  - destruct (nth_error evs i); [| apply preserves_undefined].
    apply preserves_bind; [apply preserves_funcall | intros _; apply IH].
Qed.

Lemma preserves_io_wait self fiber io events :
  preserves_struct (Event_Backend_EPoll_io_wait self fiber io events).
Proof. unfold Event_Backend_EPoll_io_wait. frame. Qed.

Lemma preserves_select self duration :
  preserves_struct (Event_Backend_EPoll_select self duration).
Proof.
  unfold Event_Backend_EPoll_select. frame.
  apply preserves_resume_events.
Qed.

(** C10: neither [io_wait] nor [select] modifies the backend's own state:
    whatever the kernel and the Ruby code called back do, and whether the call
    returns or raises, the loop reference and the queue descriptor of the
    struct are after the call what they were on entry. *)
Theorem C10_io_wait_select_frame :
  forall (os : OS) (s : Event_Backend_EPoll) (t : trace),
    (forall self fiber io events,
        let s' := snd (fst (exec os (Event_Backend_EPoll_io_wait self fiber io events) s t)) in
        loop s' = loop s /\ descriptor s' = descriptor s)
    /\
    (forall self duration,
        let s' := snd (fst (exec os (Event_Backend_EPoll_select self duration) s t)) in
        loop s' = loop s /\ descriptor s' = descriptor s).
Proof.
  intros os s t; split; intros; subst s'.
  - rewrite preserves_io_wait. split; reflexivity.
  - rewrite preserves_select. split; reflexivity.
Qed.

(** ** Construction *)

Lemma exec_initialize os self l s t :
  exec os (Event_Backend_EPoll_initialize self l) s t
  = (Normal self,
     {| loop := l; descriptor := os _ (epoll_create 1) t |},
     t ++ [E_epoll_create 1 (os _ (epoll_create 1) t)]).
Proof. reflexivity. Qed.

(** C1 (the code departs from the claim): [initialize] stores whatever
    [epoll_create] answered and returns the backend; it never raises.  When
    the kernel denies the queue the caller gets a constructed backend whose
    descriptor is -1, and no error. *)
Theorem C1_initialize_never_fails :
  (forall (os : OS) self l s t,
      fst (fst (exec os (Event_Backend_EPoll_initialize self l) s t)) = Normal self
      /\ descriptor (snd (fst (exec os (Event_Backend_EPoll_initialize self l) s t)))
         = os _ (epoll_create 1) t)
  /\ exec Scenario.denied
       (Event_Backend_EPoll_initialize Scenario.backend Scenario.scheduler)
       {| loop := Qnil; descriptor := -1 |} []
     = (Normal Scenario.backend,
        {| loop := Scenario.scheduler; descriptor := -1 |},
        [E_epoll_create 1 (-1)]).
Proof.
  split.
  - intros. rewrite exec_initialize. split; reflexivity.
  - reflexivity.
Qed.

(** ** Timeout codec: unsupported shapes *)

Lemma exec_select_timeout os self duration s t :
  exec os (Event_Backend_EPoll_select self duration) s t =
    match make_timeout duration with
    | Normal timeout =>
        exec os
          ('(count, events) <- syscall (epoll_wait (descriptor s) EPOLL_MAX_EVENTS timeout) ;;
           (if count =? -1 then rb_sys_fail "epoll_wait" else ret tt) ;;;
           resume_events events 0 (Z.to_nat count) ;;;
           ret (INT2NUM count)) s t
    | Raised e => (Raised e, s, t)
    | Undefined => (Undefined, s, t)
    end.
Proof.
  unfold Event_Backend_EPoll_select.
  rewrite exec_bind, exec_get_descriptor, exec_bind, exec_lift.
  destruct (make_timeout duration); reflexivity.
Qed.

(** C7: a duration that is neither nil, an integer nor a float makes the
    codec fail with InvalidTimeout, and [select] fails with it before doing
    anything: the history is unchanged, so no wait was performed and no
    waiter resumed. *)
Theorem C7_invalid_timeout_is_fatal :
  forall (os : OS) self duration s t,
    is_nil duration = false ->
    is_integer duration = false ->
    is_float duration = false ->
    make_timeout duration = Raised InvalidTimeout
    /\ exec os (Event_Backend_EPoll_select self duration) s t = (Raised InvalidTimeout, s, t).
Proof.
  intros os self duration s t Hn Hi Hf.
  assert (H : make_timeout duration = Raised InvalidTimeout)
    by (destruct duration; simpl in *; try discriminate; reflexivity).
  split; [exact H |].
  rewrite exec_select_timeout, H. reflexivity.
Qed.

Lemma C7_witness :
  make_timeout Qtrue = Raised InvalidTimeout
  /\ exec Scenario.two_ready (Event_Backend_EPoll_select Scenario.backend Qtrue)
       Scenario.ready_struct []
     = (Raised InvalidTimeout, Scenario.ready_struct, []).
Proof.
  apply (C7_invalid_timeout_is_fatal Scenario.two_ready Scenario.backend Qtrue
           Scenario.ready_struct []); reflexivity.
Defined.

(** A bignum is an integer, but not one the codec converts. *)
Lemma make_timeout_bignum n : make_timeout (Bignum n) = Raised InvalidTimeout.
Proof. reflexivity. Qed.

(** ** The runs of [io_wait] *)

Lemma exec_NUM2INT os v s t :
  exists o l, exec os (NUM2INT v) s t = (o, s, t ++ l) /\ converts v o l.
Proof.
  destruct v;
    try (unfold NUM2INT; rewrite exec_bind, exec_syscall;
         match goal with
         | |- context [os _ ?c t] => destruct (os _ c t) as [k | e]
         end;
         [ exists (Normal k) | exists (Raised e) ];
         eexists; (split; [reflexivity | now constructor])).
  simpl. destruct (CInt.in_int n) eqn:E.
  - exists (Normal n), []. rewrite app_nil_r. split; [reflexivity | now constructor].
  - exists (Raised RangeError), []. rewrite app_nil_r. split; [reflexivity | now constructor].
Qed.

Lemma converts_defined v l : ~ converts v Undefined l.
Proof. intro H; inversion H. Qed.

Ltac answer x :=
  match goal with
  | |- context [?os ?X ?c ?t] =>
      lazymatch type of os with OS => generalize (os X c t); intro x end
  end.

Ltac conclude :=
  intros [= <- <- <-]; split; [reflexivity |];
  eexists; split;
  [ repeat rewrite <- app_assoc; simpl; reflexivity | ].

Ltac step :=
  repeat (progress (rewrite ?exec_bind, ?exec_ret, ?exec_lift, ?exec_get_loop,
                      ?exec_get_descriptor; cbv beta iota)).

Ltac registered := eapply registering; [eassumption | eassumption |].

Lemma exec_io_wait os self fiber io events s t o s' t' :
  exec os (Event_Backend_EPoll_io_wait self fiber io events) s t = (o, s', t') ->
  s' = s /\ exists l, t' = t ++ l /\ io_wait_run s fiber io events o l.
Proof.
  unfold Event_Backend_EPoll_io_wait.
  rewrite exec_bind, exec_funcall.
  answer fileno. destruct fileno as [v | e].
  2:{ conclude. constructor. }
  rewrite exec_bind.
  destruct (exec_NUM2INT os v s (t ++ [E_funcall io id_fileno (inl v)]))
    as (o1 & l1 & -> & C1).
  destruct o1 as [fd | e |]; [| | now apply converts_defined in C1].
  2:{ conclude. now constructor. }
  rewrite exec_bind.
  destruct (exec_NUM2INT os events s ((t ++ [E_funcall io id_fileno (inl v)]) ++ l1))
    as (o2 & l2 & -> & C2).
  destruct o2 as [mask | e |]; [| | now apply converts_defined in C2].
  2:{ conclude. econstructor; eassumption. }
  step. rewrite exec_syscall. answer r. simpl Event. step.
  destruct (Z.eqb_spec r (-1)) as [-> | Hr].
  - step. rewrite exec_syscall. answer code. simpl Event. step.
    destruct (Z.eqb_spec code EEXIST) as [-> | Hcode].
    + step. rewrite exec_syscall. answer d. simpl Event.
      step. rewrite exec_syscall. simpl Event. step.
      destruct (Z.eqb_spec d (-1)) as [-> | Hd].
      * rewrite exec_rb_sys_fail. answer code'.
        conclude. registered. constructor. constructor.
      * step. rewrite exec_syscall. answer r'. simpl Event. step.
        destruct (Z.eqb_spec r' (-1)) as [-> | Hr'].
        -- rewrite exec_rb_sys_fail. answer code'.
           conclude. registered. constructor. now constructor.
        -- step. rewrite exec_funcall. answer res. destruct res as [v' | e].
           ++ step. destruct (Z.geb_spec d 0) as [Hge | Hlt].
              ** step. rewrite exec_syscall. answer c. simpl Event. step.
                 conclude. registered. constructor.
                 constructor; [lia | assumption].
              ** step.
                 conclude. registered. constructor.
                 apply retry_resumed_unclosed; [lia | assumption].
           ++ conclude. registered. constructor.
              now constructor.
    + step. change (-1 =? -1) with true. cbv iota.
      rewrite exec_rb_sys_fail. answer code'.
      conclude. registered. now constructor.
  - step. destruct (Z.eqb_spec r (-1)) as [| _]; [contradiction |].
    step. rewrite exec_funcall. answer res. destruct res as [v' | e].
    + step. change (-1 >=? 0) with false. step.
      conclude. registered. now constructor.
    + conclude. registered. now constructor.
Qed.

Lemma first_add_conversion v o l rest :
  converts v o l -> first_add (l ++ rest) = first_add rest.
Proof. intro H; inversion H; reflexivity. Qed.

Lemma ctl_requests_conversion v o l : converts v o l -> ctl_requests l = [].
Proof. intro H; inversion H; reflexivity. Qed.

Lemma flat_map_app' {A B} (f : A -> list B) (l1 l2 : list A) :
  flat_map f (l1 ++ l2) = flat_map f l1 ++ flat_map f l2.
Proof. induction l1 as [| a l1 IH]; simpl; [| rewrite IH, app_assoc]; reflexivity. Qed.

(** ** The duplicate descriptor *)

(** On the way out of a recovery that went well the duplicate is closed. *)
Lemma recovery_returning_closes epfd fd ev lp v l :
  recovery epfd fd ev lp (Normal v) l ->
  Forall (fun d => 0 <= d) (dups l) -> closes l = dups l.
Proof.
  intros H Hd; inversion H; subst; simpl in *.
  - destruct (Z.eqb_spec d (-1)); [lia | reflexivity].
  - destruct (Z.eqb_spec d (-1)); [lia |]. inversion Hd; lia.
Qed.

(** C2 (the code departs from the claim): when the retried add fails,
    [io_wait] raises with the duplicate still open.  In the run below the
    first add meets EEXIST, [dup] hands out descriptor 7, the add of 7 fails
    with ENOMEM and the call raises: 7 was obtained and never closed.  More
    generally no recovery that ends in an exception closes anything, while a
    recovery that returns closes its duplicate. *)
Theorem C2_duplicate_leaks_when_retry_fails :
  (let '(o, _, t) :=
     exec Scenario.retry_fails
       (Event_Backend_EPoll_io_wait Scenario.backend Scenario.fiber_a Scenario.io
          (Fixnum READABLE))
       Scenario.ready_struct [] in
   o = Raised (SystemCallError Scenario.ENOMEM "epoll_ctl")
   /\ first_add t
      = Some (3, EPOLL_CTL_ADD, 5,
              {| events := event_flags READABLE; data_ptr := Scenario.fiber_a |}, -1,
              [E_errno EEXIST; E_dup 5 7; E_update_max_fd 7;
               E_epoll_ctl 3 EPOLL_CTL_ADD 7
                 {| events := event_flags READABLE; data_ptr := Scenario.fiber_a |} (-1);
               E_errno Scenario.ENOMEM])
   /\ dups t = [7] /\ closes t = [])
  /\
  (forall epfd fd ev lp e l, recovery epfd fd ev lp (Raised e) l -> closes l = [])
  /\
  (forall epfd fd ev lp e d r,
      d <> -1 -> r <> -1 ->
      let l := [E_dup fd d; E_update_max_fd d; E_epoll_ctl epfd EPOLL_CTL_ADD d ev r;
                E_funcall lp id_transfer (inr e)] in
      recovery epfd fd ev lp (Raised e) l /\ dups l = [d] /\ closes l = []).
Proof.
  split; [| split].
  - vm_compute. repeat split; reflexivity.
  - intros epfd fd ev lp e l H; inversion H; reflexivity.
  - intros epfd fd ev lp e d r Hd Hr l; subst l. split; [| split].
    + now constructor.
    + simpl. destruct (Z.eqb_spec d (-1)); [contradiction | reflexivity].
    + reflexivity.
Qed.

(** ** Conflict recovery *)

Lemma first_add_no_conversion v o l : converts v o l -> first_add l = None.
Proof. intro H; inversion H; reflexivity. Qed.

(** What [io_wait] did from its first [epoll_ctl] on. *)
Lemma io_wait_first_add s fiber io events o l epfd op fd ev r rest :
  io_wait_run s fiber io events o l ->
  first_add l = Some (epfd, op, fd, ev, r, rest) ->
  exists mask l2,
    converts events (Normal mask) l2
    /\ epfd = descriptor s /\ op = EPOLL_CTL_ADD
    /\ ev = {| events := event_flags mask; data_ptr := fiber |}
    /\ registration epfd fd ev (loop s) o (E_epoll_ctl epfd op fd ev r :: rest).
Proof.
  intros Hrun Hfirst. inversion Hrun as [e | v e l0 C | v fd0 l1 e l2 C1 C2 | v fd0 l1 mask l2 o0 l0 C1 C2 R]; subst.
  - discriminate.
  - simpl in Hfirst. now rewrite (first_add_no_conversion _ _ _ C) in Hfirst.
  - simpl in Hfirst.
    rewrite (first_add_conversion _ _ _ _ C1) in Hfirst.
    now rewrite (first_add_no_conversion _ _ _ C2) in Hfirst.
  - simpl in Hfirst.
    rewrite (first_add_conversion _ _ _ _ C1), (first_add_conversion _ _ _ _ C2) in Hfirst.
    exists mask, l2.
    inversion R; subst; simpl in Hfirst; injection Hfirst as <- <- <- <- <- <-;
      repeat split; assumption.
Qed.

(** C5 (amended): when the first add of an [io_wait] call fails with EEXIST,
    the backend duplicates the descriptor and, if the duplication succeeds,
    retries the add once with the duplicate's id and the same event.  The
    first conflict by itself never fails the call: when the retry succeeds,
    control is transferred to the loop and the call ends as that transfer
    ends.  A failed duplication and a failed retry (also one that meets
    EEXIST again) are surfaced as SystemCallFailure of "dup" and of
    "epoll_ctl". *)
Theorem C5_first_conflict_is_absorbed :
  forall (os : OS) self fiber io events s t o s' l epfd op fd ev rest,
    exec os (Event_Backend_EPoll_io_wait self fiber io events) s t = (o, s', t ++ l) ->
    first_add l = Some (epfd, op, fd, ev, -1, E_errno EEXIST :: rest) ->
    epfd = descriptor s /\ op = EPOLL_CTL_ADD /\ data_ptr ev = fiber
    /\ exists d rest',
        rest = E_dup fd d :: E_update_max_fd d :: rest'
        /\ (d = -1 ->
            exists code,
              rest' = [E_errno code] /\ o = Raised (SystemCallFailure code "dup"))
        /\ (d <> -1 ->
            exists r rest'',
              rest' = E_epoll_ctl epfd EPOLL_CTL_ADD d ev r :: rest''
              /\ (r = -1 ->
                  exists code,
                    rest'' = [E_errno code]
                    /\ o = Raised (SystemCallFailure code "epoll_ctl"))
              /\ (r <> -1 ->
                  exists res closing,
                    rest'' = E_funcall (loop s) id_transfer res :: closing
                    /\ o = match res with inl _ => Normal Qnil | inr e => Raised e end)).
Proof.
  intros os self fiber io events s t o s' l epfd op fd ev rest Hexec Hfirst.
  apply exec_io_wait in Hexec as (_ & l' & Hl & Hrun).
  apply app_inv_head in Hl; subst l'.
  destruct (io_wait_first_add _ _ _ _ _ _ _ _ _ _ _ _ Hrun Hfirst)
    as (mask & l2 & _ & -> & -> & -> & R).
  repeat (split; [reflexivity |]).
  inversion R as [r v Hr | r e Hr | code code' Hcode | o0 l0 Hrec]; subst;
    try contradiction.
  inversion Hrec; subst.
  - exists (-1), [E_errno code]. split; [reflexivity |]. split.
    + intros _. exists code. split; reflexivity.
    + intro Hne; contradiction.
  - eexists d, _. split; [reflexivity |]. split; [intro; contradiction |].
    intros _. eexists (-1), _. split; [reflexivity |]. split.
    + intros _. exists code. split; reflexivity.
    + intro Hne; contradiction.
  - eexists d, _. split; [reflexivity |]. split; [intro; contradiction |].
    intros _. eexists r, _. split; [reflexivity |]. split; [intro; contradiction |].
    intros _. eexists (inr e), _. split; reflexivity.
  - eexists d, _. split; [reflexivity |]. split; [intro; lia |].
    intros _. eexists r, _. split; [reflexivity |]. split; [intro; contradiction |].
    intros _. eexists (inl v), _. split; reflexivity.
  - eexists d, _. split; [reflexivity |]. split; [intro; lia |].
    intros _. eexists r, _. split; [reflexivity |]. split; [intro; contradiction |].
    intros _. eexists (inl v), _. split; reflexivity.
Qed.

Lemma C5_witness :
  let s := Scenario.ready_struct in
  let fd := 5 in
  let epfd := 3 in
  let ev := Scenario.readable_a in
  let o : outcome VALUE := Normal Qnil in
  let rest :=
    [E_dup 5 7; E_update_max_fd 7; E_epoll_ctl 3 EPOLL_CTL_ADD 7 ev 0;
     E_funcall Scenario.scheduler id_transfer (inl Qnil); E_close 7 0] in
  epfd = descriptor s /\ EPOLL_CTL_ADD = EPOLL_CTL_ADD /\ data_ptr ev = Scenario.fiber_a
  /\ exists d rest',
      rest = E_dup fd d :: E_update_max_fd d :: rest'
      /\ (d = -1 ->
          exists code,
            rest' = [E_errno code] /\ o = Raised (SystemCallFailure code "dup"))
      /\ (d <> -1 ->
          exists r rest'',
            rest' = E_epoll_ctl epfd EPOLL_CTL_ADD d ev r :: rest''
            /\ (r = -1 ->
                exists code,
                  rest'' = [E_errno code]
                  /\ o = Raised (SystemCallFailure code "epoll_ctl"))
            /\ (r <> -1 ->
                exists res closing,
                  rest'' = E_funcall (loop s) id_transfer res :: closing
                  /\ o = match res with inl _ => Normal Qnil | inr e => Raised e end)).
Proof.
  intros s fd epfd ev o rest.
  refine (C5_first_conflict_is_absorbed Scenario.conflict Scenario.backend
            Scenario.fiber_a Scenario.io (Fixnum READABLE) s [] o s
            (E_funcall Scenario.io id_fileno (inl (Fixnum 5))
               :: E_epoll_ctl 3 EPOLL_CTL_ADD 5 ev (-1) :: E_errno EEXIST :: rest)
            epfd EPOLL_CTL_ADD fd ev rest _ _); reflexivity.
Defined.

(** C5 as stated fails: in this run the first add meets EEXIST, the
    descriptor is duplicated, the add of the duplicate meets EEXIST as well,
    and the caller receives the registration conflict as a failure of
    [epoll_ctl]. *)
Lemma C5_second_conflict_surfaces :
  let '(o, _, l) := exec Scenario.conflict_again Scenario.wait_a Scenario.ready_struct [] in
  first_add l
  = Some (3, EPOLL_CTL_ADD, 5, Scenario.readable_a, -1,
          [E_errno EEXIST; E_dup 5 7; E_update_max_fd 7;
           E_epoll_ctl 3 EPOLL_CTL_ADD 7 Scenario.readable_a (-1); E_errno EEXIST])
  /\ o = Raised (SystemCallFailure EEXIST "epoll_ctl")
  /\ surfaces_failure o.
Proof.
  vm_compute. repeat split. exists 17, "epoll_ctl". reflexivity.
Qed.

(** When the duplication itself fails there is no retry: the call fails with
    the error of [dup]. *)
Example io_wait_dup_fails :
  exec Scenario.dup_fails Scenario.wait_a Scenario.ready_struct []
  = (Raised (SystemCallFailure Scenario.EMFILE "dup"), Scenario.ready_struct,
     [E_funcall Scenario.io id_fileno (inl (Fixnum 5));
      E_epoll_ctl 3 EPOLL_CTL_ADD 5 Scenario.readable_a (-1); E_errno EEXIST;
      E_dup 5 (-1); E_update_max_fd (-1); E_errno Scenario.EMFILE]).
Proof. reflexivity. Qed.

(** ** Interest masks *)

(** Only the three low bits of the mask are looked at. *)
Lemma low_bits mask :
  exists m, 0 <= m < 8 /\ Z.land mask 7 = m
            /\ Z.land mask READABLE = Z.land m READABLE
            /\ Z.land mask PRIORITY = Z.land m PRIORITY
            /\ Z.land mask WRITABLE = Z.land m WRITABLE.
Proof.
  exists (Z.land mask 7).
  assert (H7 : Z.land mask 7 = mask mod 2 ^ 3) by (apply (Z.land_ones mask 3); lia).
  split; [rewrite H7; apply Z.mod_pos_bound; lia |].
  split; [reflexivity |].
  repeat split; rewrite <- Z.land_assoc; reflexivity.
Qed.

Lemma event_flags_cases (P : Z -> Z -> Prop) :
  (forall m, 0 <= m < 8 -> Z.land m 7 = m -> P m (event_flags m)) ->
  forall mask, P (Z.land mask 7) (event_flags mask).
Proof.
  intros H mask.
  destruct (low_bits mask) as (m & Hm & H7 & HR & HP & HW).
  replace (event_flags mask) with (event_flags m)
    by (unfold event_flags, or_if; rewrite HR, HP, HW; reflexivity).
  rewrite H7. apply H; [assumption |].
  rewrite <- H7, <- Z.land_assoc. reflexivity.
Qed.

Ltac eight_masks m H :=
  assert (H : m = 0 \/ m = 1 \/ m = 2 \/ m = 3 \/ m = 4 \/ m = 5 \/ m = 6 \/ m = 7) by lia;
  repeat (destruct H as [-> | H]); subst.

Lemma has_bit_low mask bit :
  Z.land 7 bit = bit -> has_bit mask bit = has_bit (Z.land mask 7) bit.
Proof. intro H. unfold has_bit. rewrite <- Z.land_assoc, H. reflexivity. Qed.

(** The flags as a function of the mask. *)
Lemma event_flags_spec mask :
  let flags := event_flags mask in
  Z.land flags EPOLLIN = (if has_bit mask READABLE then EPOLLIN else 0)
  /\ Z.land flags EPOLLPRI = (if has_bit mask PRIORITY then EPOLLPRI else 0)
  /\ Z.land flags EPOLLOUT = (if has_bit mask WRITABLE then EPOLLOUT else 0)
  /\ Z.land flags EPOLLRDHUP = EPOLLRDHUP
  /\ Z.land flags EPOLLONESHOT = EPOLLONESHOT
  /\ Z.ldiff flags
       (Z.lor EPOLLIN (Z.lor EPOLLPRI (Z.lor EPOLLOUT (Z.lor EPOLLRDHUP EPOLLONESHOT)))) = 0.
Proof.
  intro flags; subst flags.
  rewrite (has_bit_low mask READABLE), (has_bit_low mask PRIORITY),
    (has_bit_low mask WRITABLE) by reflexivity.
  apply (event_flags_cases
           (fun m flags =>
              Z.land flags EPOLLIN = (if has_bit m READABLE then EPOLLIN else 0)
              /\ Z.land flags EPOLLPRI = (if has_bit m PRIORITY then EPOLLPRI else 0)
              /\ Z.land flags EPOLLOUT = (if has_bit m WRITABLE then EPOLLOUT else 0)
              /\ Z.land flags EPOLLRDHUP = EPOLLRDHUP
              /\ Z.land flags EPOLLONESHOT = EPOLLONESHOT
              /\ Z.ldiff flags
                   (Z.lor EPOLLIN (Z.lor EPOLLPRI (Z.lor EPOLLOUT
                      (Z.lor EPOLLRDHUP EPOLLONESHOT)))) = 0)).
  intros m Hm _. eight_masks m E; vm_compute; repeat split.
Qed.

Lemma event_flags_ignores_high_bits mask :
  event_flags mask = event_flags (Z.land mask (Z.lor READABLE (Z.lor PRIORITY WRITABLE))).
Proof.
  change (Z.lor READABLE (Z.lor PRIORITY WRITABLE)) with 7.
  unfold event_flags, or_if. rewrite <- !Z.land_assoc. reflexivity.
Qed.

Lemma registration_requests epfd fd ev lp o l :
  registration epfd fd ev lp o l ->
  Forall (fun rq => exists fd', rq = (epfd, EPOLL_CTL_ADD, fd', ev)) (ctl_requests l)
  /\ ctl_requests l <> [].
Proof.
  intro R. split.
  - inversion R as [| | | o0 l0 Hrec]; subst; simpl;
      try (inversion Hrec; subst; simpl); repeat constructor; eexists; reflexivity.
  - inversion R; discriminate.
Qed.

Lemma converts_fixnum n o l :
  converts (Fixnum n) o l -> l = [] /\ (forall m, o = Normal m -> m = n).
Proof.
  intro C; inversion C; subst; try discriminate; split; try reflexivity.
  - now intros m [= <-].
  - discriminate.
Qed.

Lemma io_wait_requests s fiber io mask o l :
  io_wait_run s fiber io (Fixnum mask) o l ->
  Forall (fun rq => exists fd,
              rq = (descriptor s, EPOLL_CTL_ADD, fd,
                    {| events := event_flags mask; data_ptr := fiber |}))
    (ctl_requests l)
  /\ (o = Normal Qnil -> ctl_requests l <> []).
Proof.
  intro Hrun.
  inversion Hrun as [e | v e l0 C | v fd0 l1 e l2 C1 C2 | v fd0 l1 mask' l2 o0 l0 C1 C2 R];
    subst; unfold ctl_requests.
  - split; [constructor | discriminate].
  - simpl. fold (ctl_requests l0). rewrite (ctl_requests_conversion _ _ _ C).
    split; [constructor | discriminate].
  - simpl. rewrite flat_map_app'. fold (ctl_requests l1) (ctl_requests l2).
    rewrite (ctl_requests_conversion _ _ _ C1), (ctl_requests_conversion _ _ _ C2).
    split; [constructor | discriminate].
  - simpl. rewrite !flat_map_app'. fold (ctl_requests l1) (ctl_requests l2) (ctl_requests l0).
    rewrite (ctl_requests_conversion _ _ _ C1), (ctl_requests_conversion _ _ _ C2).
    simpl.
    destruct (converts_fixnum _ _ _ C2) as [_ Hmask].
    rewrite (Hmask mask' eq_refl) in R.
    destruct (registration_requests _ _ _ _ _ _ R) as [Hall Hne].
    split; [exact Hall | intros _; exact Hne].
Qed.

(** C6: for every [io_wait] call and every non-negative interest mask, each
    registration the call submits is an add to the backend's queue carrying
    the waiter and the flags translated from the mask: EPOLLIN, EPOLLPRI and
    EPOLLOUT exactly when the mask has Readable (1), Priority (2) and
    Writable (4); EPOLLRDHUP and EPOLLONESHOT always; no other flag.  Bits of
    the mask beyond these three are ignored, a call that returns has
    registered, and the empty mask registers EPOLLRDHUP and EPOLLONESHOT
    alone. *)
Theorem C6_registered_flags :
  forall (os : OS) self fiber io mask s t o s' l,
    0 <= mask <= CInt.INT_MAX ->
    exec os (Event_Backend_EPoll_io_wait self fiber io (Fixnum mask)) s t = (o, s', t ++ l) ->
    let flags := event_flags mask in
    Forall (fun rq => exists fd,
                rq = (descriptor s, EPOLL_CTL_ADD, fd,
                      {| events := flags; data_ptr := fiber |}))
      (ctl_requests l)
    /\ (o = Normal Qnil -> ctl_requests l <> [])
    /\ Z.land flags EPOLLIN = (if has_bit mask READABLE then EPOLLIN else 0)
    /\ Z.land flags EPOLLPRI = (if has_bit mask PRIORITY then EPOLLPRI else 0)
    /\ Z.land flags EPOLLOUT = (if has_bit mask WRITABLE then EPOLLOUT else 0)
    /\ Z.land flags EPOLLRDHUP = EPOLLRDHUP
    /\ Z.land flags EPOLLONESHOT = EPOLLONESHOT
    /\ Z.ldiff flags
         (Z.lor EPOLLIN (Z.lor EPOLLPRI (Z.lor EPOLLOUT (Z.lor EPOLLRDHUP EPOLLONESHOT)))) = 0
    /\ flags = event_flags (Z.land mask (Z.lor READABLE (Z.lor PRIORITY WRITABLE)))
    /\ (mask = 0 -> flags = Z.lor EPOLLRDHUP EPOLLONESHOT).
Proof.
  intros os self fiber io mask s t o s' l Hmask Hexec flags.
  apply exec_io_wait in Hexec as (_ & l' & Hl & Hrun).
  apply app_inv_head in Hl; subst l'.
  destruct (io_wait_requests _ _ _ _ _ _ Hrun) as [Hall Hne].
  destruct (event_flags_spec mask) as (HI & HP & HO & HR & HS & HX).
  repeat (split; [assumption |]).
  split; [apply event_flags_ignores_high_bits |].
  intros ->. reflexivity.
Qed.

Lemma C6_witness :
  let flags := event_flags 5 in
  Forall (fun rq => exists fd,
              rq = (descriptor Scenario.ready_struct, EPOLL_CTL_ADD, fd,
                    {| events := flags; data_ptr := Scenario.fiber_b |}))
    (ctl_requests
       [E_funcall Scenario.io id_fileno (inl (Fixnum 5));
        E_epoll_ctl 3 EPOLL_CTL_ADD 5
          {| events := 0x40002005; data_ptr := Scenario.fiber_b |} 0;
        E_funcall Scenario.scheduler id_transfer (inl Qnil)])
  /\ (Normal Qnil = Normal Qnil ->
      ctl_requests
        [E_funcall Scenario.io id_fileno (inl (Fixnum 5));
         E_epoll_ctl 3 EPOLL_CTL_ADD 5
           {| events := 0x40002005; data_ptr := Scenario.fiber_b |} 0;
         E_funcall Scenario.scheduler id_transfer (inl Qnil)] <> [])
  /\ Z.land flags EPOLLIN = (if has_bit 5 READABLE then EPOLLIN else 0)
  /\ Z.land flags EPOLLPRI = (if has_bit 5 PRIORITY then EPOLLPRI else 0)
  /\ Z.land flags EPOLLOUT = (if has_bit 5 WRITABLE then EPOLLOUT else 0)
  /\ Z.land flags EPOLLRDHUP = EPOLLRDHUP
  /\ Z.land flags EPOLLONESHOT = EPOLLONESHOT
  /\ Z.ldiff flags
       (Z.lor EPOLLIN (Z.lor EPOLLPRI (Z.lor EPOLLOUT (Z.lor EPOLLRDHUP EPOLLONESHOT)))) = 0
  /\ flags = event_flags (Z.land 5 (Z.lor READABLE (Z.lor PRIORITY WRITABLE)))
  /\ (5 = 0 -> flags = Z.lor EPOLLRDHUP EPOLLONESHOT).
Proof.
  intro flags.
  refine (C6_registered_flags Scenario.quiet Scenario.backend Scenario.fiber_b
            Scenario.io 5 Scenario.ready_struct [] (Normal Qnil) Scenario.ready_struct
            _ _ _).
  - unfold CInt.INT_MAX. lia.
  - reflexivity.
Defined.

(** The empty mask: the call registers, with EPOLLRDHUP | EPOLLONESHOT. *)
Example io_wait_empty_mask :
  exec Scenario.quiet
    (Event_Backend_EPoll_io_wait Scenario.backend Scenario.fiber_a Scenario.io (Fixnum 0))
    Scenario.ready_struct []
  = (Normal Qnil, Scenario.ready_struct,
     [E_funcall Scenario.io id_fileno (inl (Fixnum 5));
      E_epoll_ctl 3 EPOLL_CTL_ADD 5
        {| events := Z.lor EPOLLRDHUP EPOLLONESHOT; data_ptr := Scenario.fiber_a |} 0;
      E_funcall Scenario.scheduler id_transfer (inl Qnil)]).
Proof. reflexivity. Qed.

(** ** The wait/dispatch loop *)

Lemma skipn_nth_error {A} (l : list A) :
  forall i x, nth_error l i = Some x -> skipn i l = x :: skipn (S i) l.
Proof.
  induction l as [| a l IH]; intros [| i] x H; simpl in *; try discriminate.
  - now injection H as ->.
  - now apply IH.
Qed.

(** A loop that runs to its end has resumed the waiter of each entry it went
    over, in order. *)
Lemma exec_resume_events os evs s :
  forall n i t u s' t',
    (i + n <= length evs)%nat ->
    exec os (resume_events evs i n) s t = (Normal u, s', t') ->
    exists resumed, t' = t ++ resumed /\ resumes (firstn n (skipn i evs)) resumed.
Proof.
  induction n as [| n IH]; intros i t u s' t' Hlen Hexec; simpl in Hexec.
  - injection Hexec as _ _ <-. exists []. rewrite app_nil_r. split; constructor.
  - destruct (nth_error evs i) as [ev |] eqn:Hnth.
    2:{ apply nth_error_None in Hnth. lia. }
    rewrite exec_bind, exec_funcall in Hexec.
    destruct (os _ (rb_funcall (data_ptr ev) id_transfer) t) as [r | e] eqn:Hr;
      [| discriminate].
    apply IH in Hexec as (resumed & -> & Hres); [| lia].
    exists (E_funcall (data_ptr ev) id_transfer (inl r) :: resumed).
    split; [now rewrite <- app_assoc |].
    rewrite (skipn_nth_error _ _ _ Hnth). simpl.
    constructor; [now exists r | exact Hres].
Qed.

(** The loop runs to its end when every waiter it resumes comes back. *)
Lemma resume_events_returns (os : OS) evs s :
  (forall recv t, exists v, os _ (rb_funcall recv id_transfer) t = inl v) ->
  forall n i t,
    (i + n <= length evs)%nat ->
    exists t', exec os (resume_events evs i n) s t = (Normal tt, s, t').
Proof.
  intros Hback. induction n as [| n IH]; intros i t Hlen; simpl.
  - now exists t.
  - destruct (nth_error evs i) as [ev |] eqn:Hnth.
    2:{ apply nth_error_None in Hnth. lia. }
    rewrite exec_bind, exec_funcall.
    destruct (Hback (data_ptr ev) t) as [v ->].
    apply IH. lia.
Qed.

(** [select] returns the count whenever the duration is convertible, the
    wait succeeds and every resumed waiter comes back. *)
Lemma select_returns (os : OS) self duration s t timeout :
  epoll_wait_contract os ->
  (forall recv t, exists v, os _ (rb_funcall recv id_transfer) t = inl v) ->
  make_timeout duration = Normal timeout ->
  let k := fst (os _ (epoll_wait (descriptor s) EPOLL_MAX_EVENTS timeout) t) in
  k <> -1 ->
  exists t', exec os (Event_Backend_EPoll_select self duration) s t
             = (Normal (Fixnum k), s, t').
Proof.
  intros Hos Hback Htimeout k Hk. subst k.
  rewrite exec_select_timeout, Htimeout, exec_bind, exec_syscall.
  specialize (Hos (descriptor s) EPOLL_MAX_EVENTS timeout t). simpl in Hos.
  destruct (os _ (epoll_wait (descriptor s) EPOLL_MAX_EVENTS timeout) t)
    as [k written]; simpl in *.
  destruct Hos as [Hk' | [Hrange Hlen]]; [contradiction |].
  rewrite exec_bind.
  destruct (Z.eqb_spec k (-1)) as [| _]; [contradiction |].
  rewrite exec_ret, exec_bind.
  destruct (resume_events_returns os written s Hback (Z.to_nat k) 0%nat
              (t ++ [E_epoll_wait (descriptor s) EPOLL_MAX_EVENTS timeout k written]))
    as [t' ->]; [lia |].
  rewrite exec_ret. now exists t'.
Qed.

Lemma resumes_transfers written resumed :
  resumes written resumed -> transfers resumed = map data_ptr written.
Proof.
  induction 1 as [| ev e written resumed [r ->] _ IH]; simpl.
  - reflexivity.
  - now rewrite <- IH.
Qed.

Lemma scripted_obeys_epoll_wait created ctl err dupfd ready :
  epoll_wait_contract (Scenario.scripted created ctl err dupfd ready).
Proof.
  intros epfd maxevents timeout t. simpl.
  destruct (Z.leb_spec maxevents 0) as [Hle | Hgt]; simpl.
  - now left.
  - right. split; [| reflexivity].
    pose proof (firstn_le_length (Z.to_nat maxevents) ready). lia.
Qed.

(** C4: a [select] call that returns normally has waited once on the
    backend's queue with a buffer of 1024 entries; the kernel delivered [k]
    entries, [k] is at most 1024, the call then transferred into the waiter
    of each delivered entry, once per entry and in the order delivered, did
    nothing else, and returned [k].  With no entry delivered it returns 0 and
    resumes no waiter. *)
Theorem C4_select_resumes_delivered :
  forall (os : OS) self duration s t v s' t',
    epoll_wait_contract os ->
    exec os (Event_Backend_EPoll_select self duration) s t = (Normal v, s', t') ->
    exists timeout k written resumed,
      make_timeout duration = Normal timeout
      /\ t' = t ++ E_epoll_wait (descriptor s) 1024 timeout k written :: resumed
      /\ 0 <= k <= 1024
      /\ Z.of_nat (length written) = k
      /\ resumes written resumed
      /\ transfers resumed = map data_ptr written
      /\ v = Fixnum k
      /\ (k = 0 -> resumed = [] /\ v = Fixnum 0).
Proof.
  intros os self duration s t v s' t' Hos Hexec.
  rewrite exec_select_timeout in Hexec.
  destruct (make_timeout duration) as [timeout | e |]; try discriminate.
  rewrite exec_bind, exec_syscall in Hexec.
  specialize (Hos (descriptor s) EPOLL_MAX_EVENTS timeout t). simpl in Hos.
  destruct (os _ (epoll_wait (descriptor s) EPOLL_MAX_EVENTS timeout) t)
    as [k written]; simpl in Hos, Hexec.
  rewrite exec_bind in Hexec.
  destruct (Z.eqb_spec k (-1)) as [-> | Hk]; [discriminate |].
  destruct Hos as [Hk' | [Hrange Hlen]]; [contradiction |].
  rewrite exec_ret, exec_bind in Hexec.
  destruct (exec os (resume_events written 0 (Z.to_nat k)) s
              (t ++ [E_epoll_wait (descriptor s) EPOLL_MAX_EVENTS timeout k written]))
    as [[[u | e |] s1] t1] eqn:Hloop; try discriminate.
  rewrite exec_ret in Hexec. injection Hexec as <- <- <-.
  apply exec_resume_events in Hloop as (resumed & -> & Hres); [| lia].
  simpl skipn in Hres.
  rewrite firstn_all2 in Hres by lia.
  exists timeout, k, written, resumed.
  split; [reflexivity |].
  split; [now rewrite <- app_assoc |].
  split; [exact Hrange |].
  split; [exact Hlen |].
  split; [exact Hres |].
  split; [now apply resumes_transfers |].
  split; [reflexivity |].
  intros ->. split; [| reflexivity].
  destruct written; [| discriminate]. now inversion Hres.
Qed.

Lemma C4_witness :
  exists timeout k written resumed,
    make_timeout (Fixnum 2) = Normal timeout
    /\ [E_epoll_wait 3 1024 2000 2
          [ {| events := EPOLLIN; data_ptr := Scenario.fiber_b |};
            {| events := EPOLLOUT; data_ptr := Scenario.fiber_a |} ];
        E_funcall Scenario.fiber_b id_transfer (inl Qnil);
        E_funcall Scenario.fiber_a id_transfer (inl Qnil)]
       = [] ++ E_epoll_wait (descriptor Scenario.ready_struct) 1024 timeout k written
                 :: resumed
    /\ 0 <= k <= 1024
    /\ Z.of_nat (length written) = k
    /\ resumes written resumed
    /\ transfers resumed = map data_ptr written
    /\ Fixnum 2 = Fixnum k
    /\ (k = 0 -> resumed = [] /\ Fixnum 2 = Fixnum 0).
Proof.
  refine (C4_select_resumes_delivered Scenario.two_ready Scenario.backend (Fixnum 2)
            Scenario.ready_struct [] (Fixnum 2) Scenario.ready_struct _ _ _).
  - apply scripted_obeys_epoll_wait.
  - reflexivity.
Defined.

(** ** The queue handle from allocation to teardown *)

Lemma exec_extends {A} os (m : M A) s t : exists l, snd (exec os m s t) = t ++ l.
Proof. apply run_extends. Qed.

Lemma handle_ok_later s t l : handle_ok s t -> handle_ok s (t ++ l).
Proof.
  intros [H | [H1 H2]]; [now left | right].
  split; [assumption |].
  unfold created. rewrite flat_map_app'. apply in_or_app. now left.
Qed.

Lemma handle_ok_perform os c s t :
  epoll_create_contract os ->
  handle_ok s t ->
  handle_ok (snd (fst (exec os (perform c) s t))) (snd (exec os (perform c) s t)).
Proof.
  intros Hos Hok. destruct c as [self l | self fiber io events | self duration]; simpl perform.
  - rewrite exec_initialize. simpl.
    destruct (Hos 1 t) as [H | H].
    + left. exact H.
    + right. split; [exact H |].
      unfold created. rewrite flat_map_app'. apply in_or_app. right. simpl.
      destruct (Z.eqb_spec (os Z (epoll_create 1) t) (-1)); [lia | now left].
  - rewrite preserves_io_wait.
    destruct (exec_extends os (Event_Backend_EPoll_io_wait self fiber io events) s t) as [l ->].
    now apply handle_ok_later.
  - rewrite preserves_select.
    destruct (exec_extends os (Event_Backend_EPoll_select self duration) s t) as [l ->].
    now apply handle_ok_later.
Qed.

Lemma handle_ok_lifetime os :
  epoll_create_contract os ->
  forall cs s t,
    handle_ok s t ->
    handle_ok (fst (lifetime os cs s t)) (snd (lifetime os cs s t)).
Proof.
  intros Hos cs. induction cs as [| c cs IH]; intros s t Hok; simpl.
  - exact Hok.
  - pose proof (handle_ok_perform os c s t Hos Hok) as Hstep.
    destruct (exec os (perform c) s t) as [[o s1] t1]. simpl in Hstep.
    now apply IH.
Qed.

(** Before teardown the backend closes only duplicates. *)
Lemma closes_nothing_pure {A} (o : outcome A) s' :
  closes_nothing (fun _ => Ret (o, s')).
Proof. intros os s t. exists []. now rewrite app_nil_r. Qed.

Lemma closes_nothing_syscall {X} (c : call X) :
  is_close c = false -> closes_nothing (syscall c).
Proof.
  intros Hc os s t. exists [Event c (os X c t)]. split; [reflexivity |].
  destruct c; try discriminate; reflexivity.
Qed.

Lemma closes_nothing_bind {A B} (m : M A) (f : A -> M B) :
  closes_nothing m -> (forall a, closes_nothing (f a)) -> closes_nothing (bind m f).
Proof.
  intros Hm Hf os s t. rewrite exec_bind.
  destruct (Hm os s t) as (l1 & Hl1 & Hc1).
  destruct (exec os m s t) as [[[a | e |] s1] t1]; simpl in Hl1; subst t1;
    try (exists l1; now split).
  destruct (Hf a os s1 (t ++ l1)) as (l2 & Hl2 & Hc2).
  exists (l1 ++ l2). rewrite Hl2, app_assoc. split; [reflexivity |].
  unfold closes in *. now rewrite flat_map_app', Hc1, Hc2.
Qed.

Lemma closes_nothing_ret {A} (a : A) : closes_nothing (ret a).
Proof. intros os s t. exists []. now rewrite app_nil_r. Qed.

Lemma closes_nothing_rb_sys_fail {A} func : closes_nothing (@rb_sys_fail A func).
Proof. intros os s t. eexists [_]. split; reflexivity. Qed.

Lemma closes_nothing_funcall recv mid : closes_nothing (funcall recv mid).
Proof.
  intros os s t. rewrite exec_funcall. eexists [_]. split; reflexivity.
Qed.

Lemma closes_nothing_resume_events evs :
  forall n i, closes_nothing (resume_events evs i n).
Proof.
  induction n as [| n IH]; intro i; simpl.
  - apply closes_nothing_ret.
  - destruct (nth_error evs i).
    + apply closes_nothing_bind; [apply closes_nothing_funcall | intros _; apply IH].
    + intros os s t. exists []. now rewrite app_nil_r.
Qed.

Lemma closes_nothing_select self duration :
  closes_nothing (Event_Backend_EPoll_select self duration).
Proof.
  unfold Event_Backend_EPoll_select.
  apply closes_nothing_bind; [intros os s t; exists []; now rewrite app_nil_r |].
  intros epfd.
  apply closes_nothing_bind; [intros os s t; exists []; now rewrite app_nil_r |].
  intros timeout.
  apply closes_nothing_bind; [now apply closes_nothing_syscall |].
  intros [count evs].
  apply closes_nothing_bind.
  { destruct (count =? -1); [apply closes_nothing_rb_sys_fail | apply closes_nothing_ret]. }
  intros _.
  apply closes_nothing_bind; [apply closes_nothing_resume_events |].
  intros _. apply closes_nothing_ret.
Qed.

Lemma closes_nothing_weaken {A} (m : M A) :
  closes_nothing m -> closes_only_duplicates m.
Proof.
  intros H os s t. destruct (H os s t) as (l & Hl & Hc).
  exists l. split; [assumption |]. rewrite Hc. intros x [].
Qed.

Lemma conversion_closes v o l : converts v o l -> closes l = [] /\ dups l = [].
Proof. intro H; inversion H; split; reflexivity. Qed.

Lemma io_wait_run_closes s fiber io events o l :
  io_wait_run s fiber io events o l -> incl (closes l) (dups l).
Proof.
  intro Hrun.
  inversion Hrun as [e | v e l0 C | v fd0 l1 e l2 C1 C2 | v fd0 l1 mask l2 o0 l0 C1 C2 R];
    subst; unfold closes, dups; simpl; rewrite ?flat_map_app'.
  - intros x [].
  - fold (closes l0). destruct (conversion_closes _ _ _ C) as [-> _]. intros x [].
  - fold (closes l1) (closes l2).
    destruct (conversion_closes _ _ _ C1) as [-> _].
    destruct (conversion_closes _ _ _ C2) as [-> _]. intros x [].
  - fold (closes l1) (closes l2) (closes l0) (dups l1) (dups l2) (dups l0).
    destruct (conversion_closes _ _ _ C1) as [-> ->].
    destruct (conversion_closes _ _ _ C2) as [-> ->]. simpl.
    inversion R as [| | | o1 l3 Hrec]; subst; try solve [simpl; intros x []].
    inversion Hrec; subst; simpl; try solve [intros x []].
    destruct (Z.eqb_spec d (-1)); [lia | apply incl_refl].
Qed.

Lemma closes_only_duplicates_perform c : closes_only_duplicates (perform c).
Proof.
  destruct c as [self l | self fiber io events | self duration]; simpl perform.
  - intros os s t. rewrite exec_initialize. eexists [_]. split; [reflexivity |].
    intros x [].
  - intros os s t.
    destruct (exec os (Event_Backend_EPoll_io_wait self fiber io events) s t)
      as [[o s'] t'] eqn:E.
    apply exec_io_wait in E as (_ & l & -> & Hrun).
    exists l. split; [reflexivity | now apply io_wait_run_closes in Hrun].
  - apply closes_nothing_weaken, closes_nothing_select.
Qed.

Lemma lifetime_closes os cs :
  forall s t,
    exists l, snd (lifetime os cs s t) = t ++ l /\ incl (closes l) (dups l).
Proof.
  induction cs as [| c cs IH]; intros s t; simpl.
  - exists []. rewrite app_nil_r. split; [reflexivity | intros x []].
  - destruct (closes_only_duplicates_perform c os s t) as (l1 & Hl1 & Hc1).
    destruct (exec os (perform c) s t) as [[o s1] t1]. simpl in Hl1. subst t1.
    destruct (IH s1 (t ++ l1)) as (l2 & -> & Hc2).
    exists (l1 ++ l2). rewrite app_assoc. split; [reflexivity |].
    unfold closes, dups in *. rewrite !flat_map_app'.
    apply incl_app; [apply incl_appl | apply incl_appr]; assumption.
Qed.

Lemma exec_free os s t :
  exec os Event_Backend_EPoll_Type_free s t
  = (Normal tt, s,
     t ++ (if descriptor s >=? 0
           then [E_close (descriptor s) (os _ (close (descriptor s)) t)]
           else [])).
Proof.
  unfold Event_Backend_EPoll_Type_free.
  rewrite exec_bind, exec_get_descriptor, exec_bind.
  destruct (descriptor s >=? 0).
  - rewrite exec_bind, exec_syscall, !exec_ret. reflexivity.
  - rewrite !exec_ret, app_nil_r. reflexivity.
Qed.

(** C8: allocation sets the queue handle to the sentinel -1; from then on,
    through any sequence of [initialize], [io_wait] and [select] calls, the
    handle is -1 or a non-negative descriptor that a successful
    [epoll_create] returned; teardown closes the handle if and only if it is
    non-negative, and, whatever registrations the history holds, it neither
    fails nor resumes a waiter.  Before teardown the backend closes no
    descriptor but duplicates that [dup] handed out. *)
Theorem C8_queue_handle_lifecycle :
  forall (os : OS) instance cs t0,
    epoll_create_contract os ->
    let allocated := exec os (Event_Backend_EPoll_allocate instance) zeroed t0 in
    let s0 := snd (fst allocated) in
    let final := lifetime os cs s0 (snd allocated) in
    allocated = (Normal instance, {| loop := Qnil; descriptor := -1 |}, t0)
    /\ handle_ok (fst final) (snd final)
    /\ (exists l, snd final = t0 ++ l /\ incl (closes l) (dups l))
    /\ (forall s t,
          exists l,
            exec os Event_Backend_EPoll_Type_free s t = (Normal tt, s, t ++ l)
            /\ closes l = (if 0 <=? descriptor s then [descriptor s] else [])
            /\ transfers l = []
            /\ (length l <= 1)%nat).
Proof.
  intros os instance cs t0 Hos allocated s0 final.
  split; [reflexivity |].
  split; [| split].
  - apply handle_ok_lifetime; [assumption |]. now left.
  - apply lifetime_closes.
  - intros s t. rewrite exec_free.
    eexists. split; [reflexivity |].
    rewrite Z.geb_leb.
    destruct (0 <=? descriptor s); simpl; repeat split; lia.
Qed.

Lemma C8_witness :
  let os := Scenario.quiet in
  let cs := [Initialize Scenario.backend Scenario.scheduler;
             IoWait Scenario.backend Scenario.fiber_a Scenario.io (Fixnum READABLE);
             Select Scenario.backend Qnil] in
  let allocated := exec os (Event_Backend_EPoll_allocate Scenario.backend) zeroed [] in
  let s0 := snd (fst allocated) in
  let final := lifetime os cs s0 (snd allocated) in
  allocated = (Normal Scenario.backend, {| loop := Qnil; descriptor := -1 |}, [])
  /\ handle_ok (fst final) (snd final)
  /\ (exists l, snd final = [] ++ l /\ incl (closes l) (dups l))
  /\ (forall s t,
        exists l,
          exec os Event_Backend_EPoll_Type_free s t = (Normal tt, s, t ++ l)
          /\ closes l = (if 0 <=? descriptor s then [descriptor s] else [])
          /\ transfers l = []
          /\ (length l <= 1)%nat).
Proof.
  intros os cs.
  refine (C8_queue_handle_lifecycle os Scenario.backend cs [] _).
  intros size t. right. simpl. lia.
Defined.

(** The life of the witness: the queue is opened as descriptor 3, one waiter
    registers and is resumed, one [select] finds nothing, and teardown closes
    descriptor 3. *)
Example lifetime_quiet :
  let final :=
    lifetime Scenario.quiet
      [Initialize Scenario.backend Scenario.scheduler;
       IoWait Scenario.backend Scenario.fiber_a Scenario.io (Fixnum READABLE);
       Select Scenario.backend Qnil]
      {| loop := Qnil; descriptor := -1 |} [] in
  fst final = Scenario.ready_struct
  /\ created (snd final) = [3]
  /\ closes (snd (exec Scenario.quiet Event_Backend_EPoll_Type_free (fst final) (snd final)))
     = [3].
Proof. vm_compute. repeat split. Qed.

(** ** Integer durations *)

Lemma wrap_eq w x : 0 < w -> exists k, CInt.wrap w x = x + k * 2 ^ w.
Proof.
  intro Hw. unfold CInt.wrap.
  assert (Hp : 0 < 2 ^ w) by (apply Z.pow_pos_nonneg; lia).
  exists (- ((x + 2 ^ (w - 1)) / 2 ^ w)).
  rewrite Z.mod_eq by lia. lia.
Qed.

Lemma wrap_range w x : 0 < w -> - 2 ^ (w - 1) <= CInt.wrap w x < 2 ^ (w - 1).
Proof.
  intro Hw. unfold CInt.wrap.
  assert (Hp : 0 < 2 ^ (w - 1)) by (apply Z.pow_pos_nonneg; lia).
  assert (E : 2 ^ w = 2 * 2 ^ (w - 1)).
  { replace w with (Z.succ (w - 1)) at 1 by lia. apply Z.pow_succ_r. lia. }
  pose proof (Z.mod_pos_bound (x + 2 ^ (w - 1)) (2 ^ w)). lia.
Qed.

Lemma wrap_small w x : 0 < w -> - 2 ^ (w - 1) <= x < 2 ^ (w - 1) -> CInt.wrap w x = x.
Proof.
  intros Hw Hx. unfold CInt.wrap.
  assert (E : 2 ^ w = 2 * 2 ^ (w - 1)).
  { replace w with (Z.succ (w - 1)) at 1 by lia. apply Z.pow_succ_r. lia. }
  rewrite Z.mod_small by lia. lia.
Qed.

Lemma wrap_inj_small w x :
  0 < w -> CInt.wrap w x = x -> - 2 ^ (w - 1) <= x < 2 ^ (w - 1).
Proof. intros Hw E. rewrite <- E. now apply wrap_range. Qed.

(** Narrowing the wrapped [long] product to [int] keeps the product's low 32
    bits. *)
Lemma to_int_long_mul a b : CInt.to_int (CInt.long_mul a b) = CInt.to_int (a * b).
Proof.
  unfold CInt.to_int, CInt.long_mul, CInt.to_long.
  destruct (wrap_eq 64 (a * b)) as [k ->]; [lia |].
  unfold CInt.wrap.
  replace (a * b + k * 2 ^ 64 + 2 ^ (32 - 1))
    with (a * b + 2 ^ (32 - 1) + (k * 2 ^ 32) * 2 ^ 32) by lia.
  now rewrite Z_mod_plus_full.
Qed.

Lemma make_timeout_fixnum n :
  make_timeout (Fixnum n) = Normal (CInt.to_int (n * 1000)).
Proof. simpl. now rewrite to_int_long_mul. Qed.

Lemma in_int_spec x : CInt.in_int x = true <-> CInt.INT_MIN <= x <= CInt.INT_MAX.
Proof. unfold CInt.in_int. rewrite andb_true_iff, !Z.leb_le. tauto. Qed.

(** ** Fractional durations *)

Lemma digits2_log2 p : Zpos (digits2_pos p) = Z.log2 (Zpos p) + 1.
Proof.
  induction p as [p IH | p IH |]; simpl digits2_pos.
  - rewrite Pos2Z.inj_succ, IH. change (Zpos p~1) with (2 * Zpos p + 1).
    rewrite Z.log2_succ_double by lia. lia.
  - rewrite Pos2Z.inj_succ, IH. change (Zpos p~0) with (2 * Zpos p).
    rewrite Z.log2_double by lia. lia.
  - reflexivity.
Qed.

Lemma Zdigits2_log2 q : 0 < q -> Zdigits2 q = Z.log2 q + 1.
Proof. destruct q; try lia. intros _. apply digits2_log2. Qed.

Lemma iter_pos_nat {A} (f : A -> A) p :
  forall x, iter_pos f p x = Nat.iter (Pos.to_nat p) f x.
Proof.
  induction p as [p IH | p IH |]; intro x; simpl iter_pos.
  - rewrite !IH, Pos2Nat.inj_xI, Nat.iter_succ_r.
    replace (2 * Pos.to_nat p)%nat with (Pos.to_nat p + Pos.to_nat p)%nat by lia.
    now rewrite Nat.iter_add.
  - rewrite !IH, Pos2Nat.inj_xO.
    replace (2 * Pos.to_nat p)%nat with (Pos.to_nat p + Pos.to_nat p)%nat by lia.
    now rewrite Nat.iter_add.
  - reflexivity.
Qed.

(** Shifting out zero bits loses nothing. *)
Lemma shr_1_even a :
  0 < a ->
  shr_1 {| shr_m := 2 * a; shr_r := false; shr_s := false |}
  = {| shr_m := a; shr_r := false; shr_s := false |}.
Proof. destruct a; try lia. reflexivity. Qed.

Lemma shr_nat_exact n :
  forall a, 0 < a ->
    Nat.iter n shr_1 {| shr_m := a * 2 ^ Z.of_nat n; shr_r := false; shr_s := false |}
    = {| shr_m := a; shr_r := false; shr_s := false |}.
Proof.
  induction n as [| n IH]; intros a Ha.
  - simpl. now rewrite Z.mul_1_r.
  - rewrite Nat.iter_succ_r, Nat2Z.inj_succ, Z.pow_succ_r by lia.
    replace (a * (2 * 2 ^ Z.of_nat n)) with (2 * (a * 2 ^ Z.of_nat n)) by lia.
    rewrite shr_1_even; [now apply IH |].
    apply Z.mul_pos_pos; [assumption | apply Z.pow_pos_nonneg; lia].
Qed.

Lemma shr_exact q e n :
  0 < q -> 0 <= n ->
  shr {| shr_m := q * 2 ^ n; shr_r := false; shr_s := false |} e n
  = ({| shr_m := q; shr_r := false; shr_s := false |}, e + n).
Proof.
  intros Hq Hn. destruct n as [| p | p]; try lia.
  - simpl. now rewrite Z.mul_1_r, Z.add_0_r.
  - unfold shr. rewrite iter_pos_nat.
    rewrite <- (positive_nat_Z p) at 1. now rewrite shr_nat_exact.
Qed.

(** Rounding a mantissa whose excess bits are all zero only shifts them
    out. *)
Lemma binary_round_aux_exact s (pm : positive) e n q :
  fexp CDouble.prec CDouble.emax (Zdigits2 (Zpos pm) + e) = e + n ->
  0 <= n -> 0 < q -> Zpos pm = q * 2 ^ n ->
  e + n <= CDouble.emax - CDouble.prec ->
  binary_round_aux CDouble.prec CDouble.emax s (Zpos pm) e loc_Exact
  = S754_finite s (Z.to_pos q) (e + n).
Proof.
  intros Hn Hn0 Hq Hpm He.
  assert (Hdig : Zdigits2 q + (e + n) = Zdigits2 (Zpos pm) + e).
  { rewrite Hpm, !Zdigits2_log2, Z.log2_mul_pow2; lia. }
  unfold binary_round_aux, shr_fexp.
  rewrite Hn. replace (e + n - e) with n by lia.
  cbn [shr_record_of_loc]. rewrite Hpm, shr_exact by assumption.
  cbn [shr_m loc_of_shr_record round_nearest_even shr_record_of_loc].
  rewrite Hdig, Hn, Z.sub_diag.
  cbn [shr shr_m].
  destruct q as [| q' | q']; try lia.
  apply Z.leb_le in He. rewrite He. reflexivity.
Qed.

Lemma of_int_1000 : CDouble.of_int 1000 = S754_finite false 8796093022208000 (-43).
Proof. reflexivity. Qed.

(** [value * 1000] is exact when the product [c * 2^(e + k)] has a mantissa
    [c] of at most 53 bits (and is in the normal range). *)
Lemma mul_1000_exact s m e c k :
  0 <= k ->
  Zpos m * 1000 = c * 2 ^ k ->
  2 ^ 9 <= c < 2 ^ 53 ->
  -1074 <= e + k + Z.log2 c - 52 <= 971 ->
  CDouble.mul (S754_finite s m e) (CDouble.of_int 1000)
  = S754_finite s (Z.to_pos (c * 2 ^ (52 - Z.log2 c))) (e + k + Z.log2 c - 52).
Proof.
  intros Hk Hm Hc He.
  assert (Hc0 : 0 < c) by lia.
  assert (Hl : 9 <= Z.log2 c < 53).
  { split; [apply Z.log2_le_pow2 | apply Z.log2_lt_pow2]; lia. }
  set (l := Z.log2 c) in *.
  assert (HM : Zpos (m * 8796093022208000) = c * 2 ^ (k + 43)).
  { rewrite Pos2Z.inj_mul. change (Zpos 8796093022208000) with (1000 * 2 ^ 43).
    rewrite Z.mul_assoc, Hm, Z.pow_add_r by lia. lia. }
  rewrite of_int_1000. unfold CDouble.mul, SFmul. rewrite xorb_false_r.
  replace (e + k + l - 52) with (e + -43 + (l + k - 9)) by lia.
  apply binary_round_aux_exact.
  - rewrite HM, Zdigits2_log2, Z.log2_mul_pow2; try lia.
    fold l. unfold fexp, emin, CDouble.prec, CDouble.emax. lia.
  - lia.
  - apply Z.mul_pos_pos; [assumption | apply Z.pow_pos_nonneg; lia].
  - rewrite HM, <- Z.mul_assoc, <- Z.pow_add_r by lia. f_equal. f_equal. lia.
  - unfold CDouble.prec, CDouble.emax. lia.
Qed.

(** Dropping the fraction of [c * 2^a * 2^-(a+1)] leaves [c / 2]. *)
Lemma magnitude_half c a :
  0 < c -> 0 <= a -> CDouble.magnitude (Z.to_pos (c * 2 ^ a)) (- (a + 1)) = c / 2.
Proof.
  intros Hc Ha. unfold CDouble.magnitude.
  assert (Hp : 0 < 2 ^ a) by (apply Z.pow_pos_nonneg; lia).
  assert (Hq : 0 < c * 2 ^ a) by (apply Z.mul_pos_pos; assumption).
  destruct (a + 1) as [| p | p] eqn:E; try lia. cbn [Z.opp].
  rewrite (Z2Pos.id _ Hq).
  rewrite Z.shiftr_div_pow2, <- E, Z.pow_add_r, Z.pow_1_r by lia.
  rewrite (Z.mul_comm (2 ^ a) 2).
  apply Z.div_mul_cancel_r; lia.
Qed.

(** Every double whose value is [N + 1/2] converts to [N * 1000 + 500]. *)
Lemma make_timeout_half N s m e :
  CInt.INT_MIN <= N * 1000 + 500 <= CInt.INT_MAX ->
  e <= -1 -> cond_Zopp s (Zpos m) = (2 * N + 1) * 2 ^ (-1 - e) ->
  make_timeout (Float (S754_finite s m e)) = Normal (N * 1000 + 500).
Proof.
  intros Hrange He Hm.
  assert (Hin : CInt.in_int (N * 1000 + 500) = true) by now apply in_int_spec.
  unfold CInt.INT_MIN, CInt.INT_MAX in Hrange.
  assert (Hp : 0 < 2 ^ (-1 - e)) by (apply Z.pow_pos_nonneg; lia).
  set (a := cond_Zopp s (2 * N + 1)).
  assert (Ha : Zpos m = a * 2 ^ (-1 - e) /\ 0 < a).
  { subst a. destruct s; cbn [cond_Zopp] in *; split; try lia; nia. }
  destruct Ha as [Ha Ha0].
  set (c := a * 1000).
  assert (Hc : 2 ^ 9 <= c < 2 ^ 33) by (subst c a; destruct s; cbn [cond_Zopp] in *; lia).
  assert (Hl : 9 <= Z.log2 c < 33).
  { split; [apply Z.log2_le_pow2 | apply Z.log2_lt_pow2]; lia. }
  unfold make_timeout.
  rewrite (mul_1000_exact s m e c (-1 - e)) by (try rewrite Ha; subst c; lia).
  unfold CDouble.to_int, CDouble.trunc.
  replace (e + (-1 - e) + Z.log2 c - 52) with (- (52 - Z.log2 c + 1)) by lia.
  rewrite magnitude_half by lia.
  replace (cond_Zopp s (c / 2)) with (N * 1000 + 500).
  - now rewrite Hin.
  - subst c a. destruct s; cbn [cond_Zopp].
    + replace (- (2 * N + 1) * 1000) with ((- (N * 1000 + 500)) * 2) by lia.
      rewrite Z.div_mul by lia. lia.
    + replace ((2 * N + 1) * 1000) with ((N * 1000 + 500) * 2) by lia.
      now rewrite Z.div_mul.
Qed.

Lemma iter_xO p k : Zpos (Pos.iter xO p k) = Zpos p * 2 ^ Zpos k.
Proof.
  induction k as [| k IH] using Pos.peano_ind.
  - simpl. lia.
  - rewrite Pos.iter_succ, Pos2Z.inj_xO, IH, Pos2Z.inj_succ, Z.pow_succ_r by lia. lia.
Qed.

(** Normalising [p * 2^-1], for [p] of at most 53 bits, only aligns the
    mantissa. *)
Lemma binary_round_half s p :
  Zpos p < 2 ^ 53 ->
  exists m e,
    binary_round CDouble.prec CDouble.emax s p (-1) = S754_finite s m e
    /\ e <= -1
    /\ Zpos m = Zpos p * 2 ^ (-1 - e)
    /\ bounded CDouble.prec CDouble.emax m e = true.
Proof.
  intros Hmax.
  assert (Hd : 1 <= Zpos (digits2_pos p) <= 53).
  { rewrite digits2_log2.
    assert (0 <= Z.log2 (Zpos p) < 53); [| lia].
    split; [apply Z.log2_nonneg | apply Z.log2_lt_pow2; lia]. }
  pose proof (digits2_log2 p) as Hlog.
  set (d := Zpos (digits2_pos p)) in *.
  assert (Hround :
            exists m, binary_round CDouble.prec CDouble.emax s p (-1)
                      = S754_finite s m (d - 54)
                      /\ Zpos m = Zpos p * 2 ^ (53 - d)).
  { unfold binary_round, shl_align. fold d.
    replace (fexp CDouble.prec CDouble.emax (d + -1) - -1) with (d - 53)
      by (unfold fexp, emin, CDouble.prec, CDouble.emax; lia).
    replace (fexp CDouble.prec CDouble.emax (d + -1)) with (d - 54)
      by (unfold fexp, emin, CDouble.prec, CDouble.emax; lia).
    destruct (d - 53) as [| k | k] eqn:Hk; try lia.
    - exists p. replace d with 53 by lia. split; [| simpl; lia].
      rewrite (binary_round_aux_exact s p (-1) 0 (Zpos p)); try reflexivity; try lia.
      + change (Zdigits2 (Zpos p)) with d. replace d with 53 by lia. reflexivity.
      + unfold CDouble.prec, CDouble.emax. lia.
    - exists (Pos.iter xO p k).
      assert (Hm : Zpos (Pos.iter xO p k) = Zpos p * 2 ^ (53 - d))
        by (rewrite iter_xO; f_equal; f_equal; lia).
      split; [| exact Hm].
      rewrite (binary_round_aux_exact s (Pos.iter xO p k) (d - 54) 0
                 (Zpos (Pos.iter xO p k))).
      + simpl Z.to_pos. now rewrite Z.add_0_r.
      + rewrite Zdigits2_log2, Hm, Z.log2_mul_pow2 by lia.
        unfold fexp, emin, CDouble.prec, CDouble.emax. lia.
      + lia.
      + lia.
      + lia.
      + unfold CDouble.prec, CDouble.emax. lia.
  }
  destruct Hround as (m & Hround & Hm).
  exists m, (d - 54).
  split; [exact Hround |].
  split; [lia |].
  split; [rewrite Hm; f_equal; f_equal; lia |].
  unfold bounded, canonical_mantissa.
  rewrite digits2_log2, Hm, Z.log2_mul_pow2 by lia.
  apply andb_true_iff. split.
  - apply Z.eqb_eq. unfold fexp, emin, CDouble.prec, CDouble.emax. lia.
  - apply Z.leb_le. unfold CDouble.prec, CDouble.emax. lia.
Qed.

(** [half_past N] is a valid binary64 number and its value is [N + 1/2]. *)
Lemma half_past_canonical N :
  - 2 ^ 53 < 2 * N + 1 < 2 ^ 53 ->
  exists s m e,
    half_past N = S754_finite s m e
    /\ e <= -1
    /\ cond_Zopp s (Zpos m) = (2 * N + 1) * 2 ^ (-1 - e)
    /\ valid_binary CDouble.prec CDouble.emax (half_past N) = true.
Proof.
  intros Hmax. unfold half_past.
  destruct (2 * N + 1) as [| p | p] eqn:Hp; try lia; cbn [binary_normalize].
  - destruct (binary_round_half false p) as (m & e & Hr & He & Hm & Hb); [lia |].
    exists false, m, e. rewrite Hr. cbn [cond_Zopp valid_binary]. auto.
  - destruct (binary_round_half true p) as (m & e & Hr & He & Hm & Hb); [lia |].
    exists true, m, e. rewrite Hr. cbn [cond_Zopp valid_binary].
    repeat split; try assumption. rewrite Hm. lia.
Qed.

(** ** The timeout codec *)

Lemma make_timeout_half_past N :
  CInt.INT_MIN <= N * 1000 + 500 <= CInt.INT_MAX ->
  make_timeout (Float (half_past N)) = Normal (N * 1000 + 500).
Proof.
  intros Hrange.
  destruct (half_past_canonical N) as (s & m & e & -> & He & Hm & _).
  - unfold CInt.INT_MIN, CInt.INT_MAX in Hrange. lia.
  - now apply make_timeout_half.
Qed.

(** C3 (amended): the codec maps nil to -1, the reserved value for blocking
    indefinitely; it maps an integer [N] to [N * 1000] whenever [N * 1000]
    fits the 32-bit [int] it returns; and it maps the fractional input [N.5]
    (the double of value [N + 1/2], however it is written) to
    [N * 1000 + 500] whenever that fits an [int]. *)
Theorem C3_timeout_codec :
  make_timeout Qnil = Normal (-1)
  /\ (forall N,
        CInt.INT_MIN <= N * 1000 <= CInt.INT_MAX ->
        make_timeout (Fixnum N) = Normal (N * 1000))
  /\ (forall N,
        CInt.INT_MIN <= N * 1000 + 500 <= CInt.INT_MAX ->
        make_timeout (Float (half_past N)) = Normal (N * 1000 + 500))
  /\ (forall N s m e,
        CInt.INT_MIN <= N * 1000 + 500 <= CInt.INT_MAX ->
        e <= -1 -> cond_Zopp s (Zpos m) = (2 * N + 1) * 2 ^ (-1 - e) ->
        make_timeout (Float (S754_finite s m e)) = Normal (N * 1000 + 500)).
Proof.
  split; [reflexivity |].
  split; [| split].
  - intros N HN. rewrite make_timeout_fixnum. f_equal.
    apply wrap_small; [lia |]. unfold CInt.INT_MIN, CInt.INT_MAX in HN.
    change (2 ^ (32 - 1)) with (2 ^ 31). lia.
  - apply make_timeout_half_past.
  - apply make_timeout_half.
Qed.

Lemma C3_witness :
  make_timeout (Fixnum 30) = Normal (30 * 1000)
  /\ make_timeout (Float (half_past 2)) = Normal (2 * 1000 + 500)
  /\ make_timeout (Float (S754_finite true 3 (-1))) = Normal (-2 * 1000 + 500).
Proof.
  pose proof C3_timeout_codec as (_ & Hint & Hhalf & Hany).
  split; [| split].
  - apply Hint. unfold CInt.INT_MIN, CInt.INT_MAX. lia.
  - apply Hhalf; unfold CInt.INT_MIN, CInt.INT_MAX; lia.
  - apply Hany; unfold CInt.INT_MIN, CInt.INT_MAX; simpl; lia.
Defined.

(** C3 as stated fails for large durations: 2147484 units are 2147484000
    milliseconds, which no [int] holds; the codec returns a negative budget.
    The fractional input 2147484.5 has no defined conversion at all. *)
Lemma C3_large_duration_wraps :
  make_timeout (Fixnum 2147484) = Normal (-2147483296)
  /\ 2147484 * 1000 = 2147484000
  /\ CInt.INT_MAX = 2147483647
  /\ make_timeout (Float (half_past 2147484)) = Undefined.
Proof. vm_compute. repeat split. Qed.

(** The conversion to [int] drops the fraction. *)
Lemma magnitude_truncates m e :
  (e < 0 ->
   CDouble.magnitude m e * 2 ^ (- e) <= Zpos m < (CDouble.magnitude m e + 1) * 2 ^ (- e))
  /\ (0 <= e -> CDouble.magnitude m e = Zpos m * 2 ^ e).
Proof.
  split; intro He; destruct e as [| p | p]; try lia; unfold CDouble.magnitude.
  - rewrite Z.shiftr_div_pow2 by lia. cbn [Z.opp].
    assert (Hp : 0 < 2 ^ Zpos p) by (apply Z.pow_pos_nonneg; lia).
    pose proof (Z.mul_div_le (Zpos m) (2 ^ Zpos p) Hp).
    pose proof (Z.mul_succ_div_gt (Zpos m) (2 ^ Zpos p) Hp).
    lia.
  - rewrite Z.shiftl_0_r. lia.
  - now rewrite Z.shiftl_mul_pow2 by lia.
Qed.

Lemma to_int_outside x : CInt.in_int x = false -> CInt.to_int x <> x.
Proof.
  intros Hout Heq.
  apply (wrap_inj_small 32) in Heq; [| lia].
  assert (CInt.in_int x = true); [| congruence].
  apply in_int_spec. unfold CInt.INT_MIN, CInt.INT_MAX.
  change (2 ^ (32 - 1)) with (2 ^ 31) in Heq. lia.
Qed.

(** C9: for an integer duration [N] the codec returns [N * 1000] reduced
    modulo 2^32 into the range of [int]; when [N * 1000] is outside that
    range the result differs from [N * 1000], and it can be negative, which
    the queue reads as blocking indefinitely.  For a fractional duration the
    IEEE product [value * 1000] loses its fraction: the result is the
    product truncated toward zero, not rounded to nearest (1.001 units give
    1000 milliseconds, the product being just under 1001). *)
Theorem C9_timeout_truncation :
  (forall N,
      make_timeout (Fixnum N) = Normal (CInt.to_int (N * 1000))
      /\ CInt.INT_MIN <= CInt.to_int (N * 1000) <= CInt.INT_MAX
      /\ (exists k, CInt.to_int (N * 1000) = N * 1000 + k * 2 ^ 32)
      /\ (CInt.in_int (N * 1000) = false ->
          make_timeout (Fixnum N) <> Normal (N * 1000)))
  /\ make_timeout (Fixnum 2147484) = Normal (-2147483296)
  /\ (forall v s m e,
        CDouble.mul v (CDouble.of_int 1000) = S754_finite s m e ->
        let z := CDouble.magnitude m e in
        make_timeout (Float v)
        = (if CInt.in_int (cond_Zopp s z) then Normal (cond_Zopp s z) else Undefined)
        /\ (e < 0 -> z * 2 ^ (- e) <= Zpos m < (z + 1) * 2 ^ (- e))
        /\ (0 <= e -> z = Zpos m * 2 ^ e))
  /\ (let v := S754_finite false 4508103226997866 (-52) in
      CDouble.mul v (CDouble.of_int 1000) = S754_finite false 8804889115230207 (-43)
      /\ 1000 * 2 ^ 43 + 2 ^ 42 < 8804889115230207 < 1001 * 2 ^ 43
      /\ make_timeout (Float v) = Normal 1000).
Proof.
  split; [| split; [| split]].
  - intro N. split; [apply make_timeout_fixnum |]. split; [| split].
    + pose proof (wrap_range 32 (N * 1000)) as H.
      unfold CInt.to_int, CInt.INT_MIN, CInt.INT_MAX.
      change (2 ^ (32 - 1)) with (2 ^ 31) in H. lia.
    + apply wrap_eq. lia.
    + intros Hout. rewrite make_timeout_fixnum. intros [= Heq].
      now apply to_int_outside in Hout.
  - reflexivity.
  - intros v s m e Hmul z. split; [| apply magnitude_truncates].
    unfold make_timeout, CDouble.to_int. rewrite Hmul. cbn [CDouble.trunc].
    fold z. destruct (CInt.in_int (cond_Zopp s z)); reflexivity.
  - vm_compute. repeat split.
Qed.

Lemma C9_witness :
  (make_timeout (Fixnum 4294968) <> Normal (4294968 * 1000))
  /\ (let z := CDouble.magnitude 8796093022208000%positive (-53) in
      make_timeout (Float (S754_finite false 1 (-10)))
      = (if CInt.in_int (cond_Zopp false z) then Normal (cond_Zopp false z) else Undefined)
      /\ (-53 < 0 -> z * 2 ^ (- -53) <= Zpos 8796093022208000 < (z + 1) * 2 ^ (- -53))
      /\ (0 <= -53 -> z = Zpos 8796093022208000 * 2 ^ (-53))).
Proof.
  pose proof C9_timeout_truncation as (Hint & _ & Hfloat & _).
  split.
  - apply (Hint 4294968). reflexivity.
  - apply (Hfloat (S754_finite false 1 (-10)) false 8796093022208000%positive (-53)).
    reflexivity.
Defined.

(** * Further properties *)

(** ** The runs of [select] *)

Lemma exec_dispatch (os : OS) evs s :
  forall n i t o s' t',
    exec os (resume_events evs i n) s t = (o, s', t') ->
    s' = s /\ exists l, t' = t ++ l /\ dispatch evs i n o l.
Proof.
  induction n as [| n IH]; intros i t o s' t' Hexec; simpl in Hexec.
  - injection Hexec as <- <- <-. split; [reflexivity |].
    exists []. rewrite app_nil_r. split; [reflexivity | constructor].
  - destruct (nth_error evs i) as [ev |] eqn:Hnth.
    + rewrite exec_bind, exec_funcall in Hexec.
      destruct (os _ (rb_funcall (data_ptr ev) id_transfer) t) as [v | e].
      * apply IH in Hexec as (-> & l & -> & Hl). split; [reflexivity |].
        exists (E_funcall (data_ptr ev) id_transfer (inl v) :: l).
        split; [now rewrite <- app_assoc | now constructor].
      * injection Hexec as <- <- <-. split; [reflexivity |].
        eexists. split; [reflexivity | now constructor].
    + injection Hexec as <- <- <-. split; [reflexivity |].
      exists []. rewrite app_nil_r. split; [reflexivity | now constructor].
Qed.

Lemma exec_select_run (os : OS) self duration s t o s' t' :
  exec os (Event_Backend_EPoll_select self duration) s t = (o, s', t') ->
  s' = s
  /\ exists l,
      t' = t ++ l
      /\ select_run s duration o l
      /\ (forall epfd maxevents timeout k written rest,
             l = E_epoll_wait epfd maxevents timeout k written :: rest ->
             (k, written) = os _ (epoll_wait epfd maxevents timeout) t).
Proof.
  rewrite exec_select_timeout.
  destruct (make_timeout duration) as [timeout | e |] eqn:Htimeout.
  - rewrite exec_bind, exec_syscall.
    destruct (os _ (epoll_wait (descriptor s) EPOLL_MAX_EVENTS timeout) t)
      as [k written] eqn:Hos. cbn [Event fst snd].
    rewrite exec_bind.
    destruct (Z.eqb_spec k (-1)) as [-> | Hk].
    + rewrite exec_rb_sys_fail.
      match goal with |- context [os Z errno ?h] => generalize (os Z errno h) end.
      intros code [= <- <- <-]. split; [reflexivity |].
      eexists. split; [rewrite <- app_assoc; reflexivity |].
      split; [now constructor |].
      intros epfd mx to k w rest [= <- <- <- <- <- _]. now rewrite Hos.
    + rewrite exec_ret, exec_bind.
      destruct (exec os (resume_events written 0 (Z.to_nat k)) s
                  (t ++ [E_epoll_wait (descriptor s) EPOLL_MAX_EVENTS timeout k written]))
        as [[o1 s1] t1] eqn:Hloop.
      apply exec_dispatch in Hloop as (-> & l & -> & Hl).
      assert (Hlink :
                forall epfd mx to k' w rest,
                  E_epoll_wait (descriptor s) EPOLL_MAX_EVENTS timeout k written :: l
                  = E_epoll_wait epfd mx to k' w :: rest ->
                  (k', w) = os _ (epoll_wait epfd mx to) t).
      { intros epfd mx to k' w rest [= <- <- <- <- <- _]. now rewrite Hos. }
      destruct o1 as [[] | e |].
      * rewrite exec_ret. intros [= <- <- <-]. split; [reflexivity |].
        eexists. split; [rewrite <- app_assoc; reflexivity |].
        split; [now constructor | exact Hlink].
      * intros [= <- <- <-]. split; [reflexivity |].
        eexists. split; [rewrite <- app_assoc; reflexivity |].
        split; [now apply dispatch_aborted | exact Hlink].
      * intros [= <- <- <-]. split; [reflexivity |].
        eexists. split; [rewrite <- app_assoc; reflexivity |].
        split; [now apply dispatch_undefined | exact Hlink].
  - intros [= <- <- <-]. split; [reflexivity |].
    exists []. rewrite app_nil_r. split; [reflexivity |].
    split; [now constructor | discriminate].
  - intros [= <- <- <-]. split; [reflexivity |].
    exists []. rewrite app_nil_r. split; [reflexivity |].
    split; [now constructor | discriminate].
Qed.

(** What the resume loop transfers into are the waiters of the entries it
    went over, in order; it registers, duplicates and closes nothing. *)
Lemma dispatch_transfers written :
  forall i n o l,
    dispatch written i n o l ->
    exists j, (j <= n)%nat /\ transfers l = map data_ptr (firstn j (skipn i written)).
Proof.
  induction 1 as [i | i n Hnth | i n ev e Hnth | i n ev v o l Hnth _ IH].
  - exists 0%nat. split; [lia | reflexivity].
  - exists 0%nat. split; [lia | reflexivity].
  - exists 1%nat. split; [lia |].
    rewrite (skipn_nth_error _ _ _ Hnth). reflexivity.
  - destruct IH as (j & Hj & IH). exists (S j). split; [lia |].
    rewrite (skipn_nth_error _ _ _ Hnth). cbn [firstn map].
    unfold transfers in *. cbn [flat_map transferred app]. now rewrite IH.
Qed.

Lemma dispatch_only_transfers written i n o l :
  dispatch written i n o l ->
  ctl_requests l = [] /\ dups l = [] /\ closes l = [] /\ waits l = []
  /\ registered l = [] /\ errno_reads l = [].
Proof.
  induction 1 as [| | | i n ev v o l Hnth _ IH]; try (repeat split; reflexivity).
  exact IH.
Qed.

Lemma dispatch_raised_at written e :
  forall i n o l,
    dispatch written i n o l -> o = Raised e ->
    exists j ev resumed,
      (j < n)%nat
      /\ nth_error written (i + j) = Some ev
      /\ resumes (firstn j (skipn i written)) resumed
      /\ l = resumed ++ [E_funcall (data_ptr ev) id_transfer (inr e)].
Proof.
  induction 1 as [i | i n Hnth | i n ev e' Hnth | i n ev v o l Hnth _ IH];
    intro Ho; try discriminate.
  - injection Ho as ->. exists 0%nat, ev, []. rewrite Nat.add_0_r.
    repeat split; [lia | assumption | constructor].
  - destruct (IH Ho) as (j & ev' & resumed & Hj & Hnth' & Hres & ->).
    exists (S j), ev', (E_funcall (data_ptr ev) id_transfer (inl v) :: resumed).
    split; [lia |].
    split; [now rewrite Nat.add_succ_r |].
    split; [| reflexivity].
    rewrite (skipn_nth_error _ _ _ Hnth). cbn [firstn].
    constructor; [now exists v | exact Hres].
Qed.

(** X1: a failed wait is fatal to [select]: when [epoll_wait] answers -1 the
    call raises the SystemCallFailure of "epoll_wait" with the error number
    it then reads, transfers into no waiter, and is not retried. *)
Theorem X1_select_wait_failure_is_fatal :
  forall (os : OS) self duration s t o s' epfd maxevents timeout written rest,
    exec os (Event_Backend_EPoll_select self duration) s t
    = (o, s', t ++ E_epoll_wait epfd maxevents timeout (-1) written :: rest) ->
    exists code,
      rest = [E_errno code]
      /\ o = Raised (SystemCallFailure code "epoll_wait")
      /\ transfers rest = []
      /\ waits rest = [].
Proof.
  intros os self duration s t o s' epfd mx to written rest Hexec.
  apply exec_select_run in Hexec as (_ & l & Hl & Hrun & _).
  apply app_inv_head in Hl; subst l.
  inversion Hrun; subst; try contradiction.
  exists code. repeat split.
Qed.

Lemma X1_witness :
  exists code,
    [E_errno Kernel.EINTR] = [E_errno code]
    /\ (Raised (SystemCallError Kernel.EINTR "epoll_wait") : outcome VALUE)
       = Raised (SystemCallFailure code "epoll_wait")
    /\ transfers [E_errno Kernel.EINTR] = []
    /\ waits [E_errno Kernel.EINTR] = [].
Proof.
  refine (X1_select_wait_failure_is_fatal Kernel.interrupted Scenario.backend Qnil
            Scenario.ready_struct []
            (Raised (SystemCallError Kernel.EINTR "epoll_wait") : outcome VALUE)
            Scenario.ready_struct 3 1024 (-1) [] [E_errno Kernel.EINTR] _).
  reflexivity.
Defined.

(** X2: a waiter that raises when resumed ends the [select] call: the entries
    delivered before it were resumed in order, the exception reaches the
    caller of [select], and the entries delivered after it are not resumed
    by this call. *)
Theorem X2_select_stops_at_raising_waiter :
  forall (os : OS) self duration s t e s' epfd maxevents timeout k written rest,
    k <> -1 ->
    exec os (Event_Backend_EPoll_select self duration) s t
    = (Raised e, s', t ++ E_epoll_wait epfd maxevents timeout k written :: rest) ->
    exists j ev resumed,
      (j < Z.to_nat k)%nat
      /\ nth_error written j = Some ev
      /\ resumes (firstn j written) resumed
      /\ rest = resumed ++ [E_funcall (data_ptr ev) id_transfer (inr e)]
      /\ transfers rest = map data_ptr (firstn j written) ++ [data_ptr ev].
Proof.
  intros os self duration s t e s' epfd mx to k written rest Hk Hexec.
  apply exec_select_run in Hexec as (_ & l & Hl & Hrun & _).
  apply app_inv_head in Hl; subst l.
  inversion Hrun as [| | | | to' k' w' e' l' Hto Hk' Hd |]; subst; try contradiction.
  destruct (dispatch_raised_at _ e _ _ _ _ Hd eq_refl)
    as (j & ev & resumed & Hj & Hnth & Hres & ->).
  exists j, ev, resumed. simpl in Hnth, Hres.
  repeat split; try assumption.
  unfold transfers. rewrite flat_map_app'.
  fold (transfers resumed). now rewrite (resumes_transfers _ _ Hres).
Qed.

Lemma X2_witness :
  exists j ev resumed,
    (j < Z.to_nat 2)%nat
    /\ nth_error
         [ {| events := EPOLLIN; data_ptr := Scenario.fiber_b |};
           {| events := EPOLLOUT; data_ptr := Scenario.fiber_a |} ] j = Some ev
    /\ resumes
         (firstn j [ {| events := EPOLLIN; data_ptr := Scenario.fiber_b |};
                     {| events := EPOLLOUT; data_ptr := Scenario.fiber_a |} ])
         resumed
    /\ [E_funcall Scenario.fiber_b id_transfer (inr Kernel.failure)]
       = resumed ++ [E_funcall (data_ptr ev) id_transfer (inr Kernel.failure)]
    /\ transfers [E_funcall Scenario.fiber_b id_transfer (inr Kernel.failure)]
       = map data_ptr
           (firstn j [ {| events := EPOLLIN; data_ptr := Scenario.fiber_b |};
                       {| events := EPOLLOUT; data_ptr := Scenario.fiber_a |} ])
         ++ [data_ptr ev].
Proof.
  refine (X2_select_stops_at_raising_waiter Kernel.first_raises Scenario.backend
            (Fixnum 0) Scenario.ready_struct [] Kernel.failure Scenario.ready_struct
            3 1024 0 2 _ _ _ _).
  - discriminate.
  - reflexivity.
Defined.

(** X3: [select] only waits and resumes: a call issues at most one
    [epoll_wait], on the backend's descriptor, with room for 1024 entries
    and the timeout the codec computed; it never adds a registration, never
    duplicates and never closes a descriptor. *)
Theorem X3_select_only_waits_and_resumes :
  forall (os : OS) self duration s t o s' l,
    exec os (Event_Backend_EPoll_select self duration) s t = (o, s', t ++ l) ->
    ctl_requests l = [] /\ dups l = [] /\ closes l = []
    /\ (waits l = []
        \/ exists timeout k,
            make_timeout duration = Normal timeout
            /\ waits l = [(descriptor s, 1024, timeout, k)]).
Proof.
  intros os self duration s t o s' l Hexec.
  apply exec_select_run in Hexec as (_ & l' & Hl & Hrun & _).
  apply app_inv_head in Hl; subst l'.
  inversion Hrun as [ | | to w code Hto | to k w l0 Hto Hk Hd
                    | to k w e l0 Hto Hk Hd | to k w l0 Hto Hk Hd ]; subst;
    try (repeat split; try reflexivity; now left);
    try (repeat split; try reflexivity; right; exists to, (-1); now split);
    destruct (dispatch_only_transfers _ _ _ _ _ Hd) as (Hc & Hdu & Hcl & Hw & _);
    unfold ctl_requests, dups, closes, waits in *; cbn [flat_map ctl_request dup_result
      closed_fd wait_event app];
    rewrite ?Hc, ?Hdu, ?Hcl, ?Hw;
    (repeat split; try reflexivity; right; exists to, k; now split).
Qed.

Lemma X3_witness :
  let l := [E_epoll_wait 3 1024 2000 2
              [ {| events := EPOLLIN; data_ptr := Scenario.fiber_b |};
                {| events := EPOLLOUT; data_ptr := Scenario.fiber_a |} ];
            E_funcall Scenario.fiber_b id_transfer (inl Qnil);
            E_funcall Scenario.fiber_a id_transfer (inl Qnil)] in
  ctl_requests l = [] /\ dups l = [] /\ closes l = []
  /\ (waits l = []
      \/ exists timeout k,
          make_timeout (Fixnum 2) = Normal timeout
          /\ waits l = [(descriptor Scenario.ready_struct, 1024, timeout, k)]).
Proof.
  intro l.
  refine (X3_select_only_waits_and_resumes Scenario.two_ready Scenario.backend
            (Fixnum 2) Scenario.ready_struct [] (Normal (Fixnum 2))
            Scenario.ready_struct l _).
  reflexivity.
Defined.

(** ** More on the runs of [io_wait] *)

Lemma silent_nil : silent [].
Proof. repeat split. Qed.

Lemma silent_app l1 l2 : silent l1 -> silent l2 -> silent (l1 ++ l2).
Proof.
  unfold silent, ctl_requests, registered, dups, closes, transfers, errno_reads, waits.
  intros (A1 & A2 & A3 & A4 & A5 & A6 & A7) (B1 & B2 & B3 & B4 & B5 & B6 & B7).
  rewrite !flat_map_app', A1, A2, A3, A4, A5, A6, A7, B1, B2, B3, B4, B5, B6, B7.
  repeat split.
Qed.

Lemma conversion_silent v o l : converts v o l -> silent l.
Proof. intro H; inversion H; repeat split. Qed.

Lemma fileno_silent io r : silent [E_funcall io id_fileno r].
Proof. repeat split. Qed.

(** Observations skip a silent stretch. *)
Lemma after_silent pre l :
  silent pre ->
  ctl_requests (pre ++ l) = ctl_requests l
  /\ registered (pre ++ l) = registered l
  /\ dups (pre ++ l) = dups l
  /\ closes (pre ++ l) = closes l
  /\ transfers (pre ++ l) = transfers l
  /\ errno_reads (pre ++ l) = errno_reads l
  /\ waits (pre ++ l) = waits l.
Proof.
  unfold silent, ctl_requests, registered, dups, closes, transfers, errno_reads, waits.
  intros (A1 & A2 & A3 & A4 & A5 & A6 & A7).
  rewrite !flat_map_app', A1, A2, A3, A4, A5, A6, A7. repeat split.
Qed.

(** A run of [io_wait] is silent (argument resolution aside), or silent up
    to its first [epoll_ctl], from which the registration protocol runs. *)
Lemma io_wait_run_split s fiber io events o l :
  io_wait_run s fiber io events o l ->
  (silent l /\ exists e, o = Raised e)
  \/ exists pre fd mask l0,
      l = pre ++ l0 /\ silent pre
      /\ registration (descriptor s) fd
           {| events := event_flags mask; data_ptr := fiber |} (loop s) o l0.
Proof.
  intro Hrun.
  inversion Hrun as [e | v e l0 C | v fd0 l1 e l2 C1 C2 | v fd0 l1 mask l2 o0 l0 C1 C2 R];
    subst.
  - left. split; [apply fileno_silent | now exists e].
  - left. split; [| now exists e].
    apply (silent_app [_]); [apply fileno_silent | eapply conversion_silent; eassumption].
  - left. split; [| now exists e].
    apply (silent_app [_]); [apply fileno_silent |].
    apply silent_app; eapply conversion_silent; eassumption.
  - right. exists (E_funcall io id_fileno (inl v) :: l1 ++ l2), fd0, mask, l0.
    split; [simpl; now rewrite <- app_assoc |].
    split; [| exact R].
    apply (silent_app [_]); [apply fileno_silent |].
    apply silent_app; eapply conversion_silent; eassumption.
Qed.

Lemma first_add_after_silent pre l : silent pre -> first_add (pre ++ l) = first_add l.
Proof.
  intros (Hc & _). induction pre as [| e pre IH]; [reflexivity |].
  unfold ctl_requests in *. destruct e; simpl in *; try discriminate; now apply IH.
Qed.

Lemma registration_first_add epfd fd ev lp o l :
  registration epfd fd ev lp o l ->
  exists r rest, l = E_epoll_ctl epfd EPOLL_CTL_ADD fd ev r :: rest.
Proof. intro R; inversion R; subst; eexists _, _; reflexivity. Qed.

(** What a registration registers and where it transfers. *)
Lemma registration_effect epfd fd ev lp o l :
  registration epfd fd ev lp o l ->
  waits l = []
  /\ (length (ctl_requests l) <= 2)%nat
  /\ ((registered l = [ev] /\ transfers l = [lp])
      \/ (registered l = [] /\ transfers l = [] /\ exists e, o = Raised e))
  /\ (forall v, o = Normal v -> v = Qnil).
Proof.
  intro R.
  inversion R as [r v Hr | r e Hr | code code' Hcode | o0 l0 Hrec]; subst;
    try (inversion Hrec as [code | d code Hd | d r e Hd Hr | d r v c Hd Hr | d r v Hd Hr];
         subst);
    unfold waits, ctl_requests, registered, transfers;
    cbn [flat_map wait_event ctl_request registered_event transferred app length];
    repeat match goal with
      | H : ?r <> -1 |- context [?r =? -1] =>
          destruct (Z.eqb_spec r (-1)) as [| _]; [contradiction |]
      end;
    change (-1 =? -1) with true; cbn [app];
    (split; [reflexivity |]); (split; [lia |]);
    (split; [| intros v0 Hv0; inversion Hv0; reflexivity]);
    try (left; split; reflexivity);
    try (right; split; [reflexivity |]; split; [reflexivity |]; eexists; reflexivity).
Qed.

(** X4: an [io_wait] call suspends exactly when it registered.  Either the
    queue accepted exactly one entry, carrying the caller's waiter, and the
    call transferred exactly once, into the loop; or nothing was accepted, no
    transfer was made and the call raised.  A call never waits on the queue,
    never transfers into a waiter, submits at most two adds, and returns nil
    when it returns. *)
Theorem X4_io_wait_suspends_iff_registered :
  forall (os : OS) self fiber io events s t o s' l,
    exec os (Event_Backend_EPoll_io_wait self fiber io events) s t = (o, s', t ++ l) ->
    waits l = []
    /\ (length (ctl_requests l) <= 2)%nat
    /\ ((exists ev, registered l = [ev] /\ data_ptr ev = fiber /\ transfers l = [loop s])
        \/ (registered l = [] /\ transfers l = [] /\ exists e, o = Raised e))
    /\ (forall v, o = Normal v -> v = Qnil).
Proof.
  intros os self fiber io events s t o s' l Hexec.
  apply exec_io_wait in Hexec as (_ & l' & Hl & Hrun).
  apply app_inv_head in Hl; subst l'.
  apply io_wait_run_split in Hrun
    as [[(Hc & Hr & _ & _ & Ht & _ & Hw) [e ->]] | (pre & fd & mask & l0 & -> & Hpre & R)].
  - split; [assumption |]. split; [rewrite Hc; simpl; lia |].
    split; [right; repeat split; try assumption; now exists e | discriminate].
  - destruct (after_silent pre l0 Hpre) as (-> & -> & _ & _ & -> & _ & ->).
    destruct (registration_effect _ _ _ _ _ _ R) as (Hw & Hn & Hreg & Hnil).
    split; [assumption |]. split; [assumption |]. split; [| assumption].
    destruct Hreg as [[Hreg Htr] | Hnone]; [left | now right].
    eexists. split; [exact Hreg |]. split; [reflexivity | exact Htr].
Qed.

Lemma X4_witness :
  let l := [E_funcall Scenario.io id_fileno (inl (Fixnum 5));
            E_epoll_ctl 3 EPOLL_CTL_ADD 5 Scenario.readable_a (-1); E_errno EEXIST;
            E_dup 5 7; E_update_max_fd 7;
            E_epoll_ctl 3 EPOLL_CTL_ADD 7 Scenario.readable_a 0;
            E_funcall Scenario.scheduler id_transfer (inl Qnil); E_close 7 0] in
  waits l = []
  /\ (length (ctl_requests l) <= 2)%nat
  /\ ((exists ev,
          registered l = [ev] /\ data_ptr ev = Scenario.fiber_a
          /\ transfers l = [loop Scenario.ready_struct])
      \/ (registered l = [] /\ transfers l = []
          /\ exists e, (Normal Qnil : outcome VALUE) = Raised e))
  /\ (forall v, Normal Qnil = Normal v -> v = Qnil).
Proof.
  intro l.
  refine (X4_io_wait_suspends_iff_registered Scenario.conflict Scenario.backend
            Scenario.fiber_a Scenario.io (Fixnum READABLE) Scenario.ready_struct []
            (Normal Qnil) Scenario.ready_struct l _).
  reflexivity.
Defined.

Lemma silent_first_add l : silent l -> first_add l = None.
Proof.
  intro H. rewrite <- (app_nil_r l). now rewrite first_add_after_silent.
Qed.

(** From the first [epoll_ctl] of a call on, the registration protocol. *)
Lemma io_wait_from_first_add (os : OS) self fiber io events s t o s' l
  epfd op fd ev r rest :
  exec os (Event_Backend_EPoll_io_wait self fiber io events) s t = (o, s', t ++ l) ->
  first_add l = Some (epfd, op, fd, ev, r, rest) ->
  exists pre,
    l = pre ++ E_epoll_ctl epfd op fd ev r :: rest
    /\ silent pre
    /\ registration epfd fd ev (loop s) o (E_epoll_ctl epfd op fd ev r :: rest).
Proof.
  intros Hexec Hfirst.
  apply exec_io_wait in Hexec as (_ & l' & Hl & Hrun).
  apply app_inv_head in Hl; subst l'.
  apply io_wait_run_split in Hrun
    as [[Hsilent _] | (pre & fd0 & mask & l0 & -> & Hpre & R)].
  - rewrite (silent_first_add _ Hsilent) in Hfirst. discriminate.
  - rewrite (first_add_after_silent _ _ Hpre) in Hfirst.
    destruct (registration_first_add _ _ _ _ _ _ R) as (r0 & rest0 & ->).
    simpl in Hfirst. injection Hfirst as <- <- <- <- <- <-.
    exists pre. split; [reflexivity | split; assumption].
Qed.

(** X5: an [io_wait] call that returns has closed exactly what it
    duplicated: no descriptor when the first add went through, and the one
    duplicate, once, after a conflict. *)
Theorem X5_io_wait_closes_what_it_duplicated :
  forall (os : OS) self fiber io events s t v s' l,
    Forall (fun d => 0 <= d) (dups l) ->
    exec os (Event_Backend_EPoll_io_wait self fiber io events) s t
    = (Normal v, s', t ++ l) ->
    closes l = dups l
    /\ ((dups l = [] /\ errno_reads l = [])
        \/ exists d, dups l = [d] /\ errno_reads l = [EEXIST]).
Proof.
  intros os self fiber io events s t v s' l Hdups Hexec.
  apply exec_io_wait in Hexec as (_ & l' & Hl & Hrun).
  apply app_inv_head in Hl; subst l'.
  apply io_wait_run_split in Hrun
    as [[_ [e He]] | (pre & fd & mask & l0 & -> & Hpre & R)]; [discriminate |].
  destruct (after_silent pre l0 Hpre) as (_ & _ & Ed & Ec & _ & Ee & _).
  rewrite Ed, Ec, Ee in *. clear Ed Ec Ee.
  inversion R as [r v0 Hr | | | o0 l1 Hrec]; subst.
  - split; [reflexivity | left; split; reflexivity].
  - inversion Hrec as [| | | d r v0 c Hd Hr | d r v0 Hd Hr]; subst;
      unfold dups, closes, errno_reads in *;
      cbn [flat_map dup_result closed_fd errno_event app] in *.
    + destruct (Z.eqb_spec d (-1)); [lia |].
      split; [reflexivity | right; now exists d].
    + destruct (Z.eqb_spec d (-1)); [lia |].
      inversion Hdups; lia.
Qed.

Lemma X5_witness :
  let l := [E_funcall Scenario.io id_fileno (inl (Fixnum 5));
            E_epoll_ctl 3 EPOLL_CTL_ADD 5 Scenario.readable_a (-1); E_errno EEXIST;
            E_dup 5 7; E_update_max_fd 7;
            E_epoll_ctl 3 EPOLL_CTL_ADD 7 Scenario.readable_a 0;
            E_funcall Scenario.scheduler id_transfer (inl Qnil); E_close 7 0] in
  closes l = dups l
  /\ ((dups l = [] /\ errno_reads l = [])
      \/ exists d, dups l = [d] /\ errno_reads l = [EEXIST]).
Proof.
  intro l.
  refine (X5_io_wait_closes_what_it_duplicated Scenario.conflict Scenario.backend
            Scenario.fiber_a Scenario.io (Fixnum READABLE) Scenario.ready_struct []
            Qnil Scenario.ready_struct l _ _).
  - repeat constructor. discriminate.
  - reflexivity.
Defined.

(** X6: when the first add goes through, [io_wait] does nothing more than
    transfer into the loop: [errno] is not consulted, nothing is duplicated
    or closed, and the call ends as that transfer ends: it returns nil, or
    it raises what the loop raised. *)
Theorem X6_io_wait_plain_registration :
  forall (os : OS) self fiber io events s t o s' l epfd op fd ev r rest,
    r <> -1 ->
    exec os (Event_Backend_EPoll_io_wait self fiber io events) s t = (o, s', t ++ l) ->
    first_add l = Some (epfd, op, fd, ev, r, rest) ->
    exists res,
      rest = [E_funcall (loop s) id_transfer res]
      /\ o = match res with inl _ => Normal Qnil | inr e => Raised e end
      /\ errno_reads l = [] /\ dups l = [] /\ closes l = [].
Proof.
  intros os self fiber io events s t o s' l epfd op fd ev r rest Hr Hexec Hfirst.
  destruct (io_wait_from_first_add _ _ _ _ _ _ _ _ _ _ _ _ _ _ _ _ Hexec Hfirst)
    as (pre & -> & Hpre & R).
  destruct (after_silent pre (E_epoll_ctl epfd op fd ev r :: rest) Hpre)
    as (_ & _ & -> & -> & _ & -> & _).
  inversion R; subst; try contradiction.
  - exists (inl v). repeat split.
  - exists (inr e). repeat split.
Qed.

Lemma X6_witness :
  exists res,
    [E_funcall Scenario.scheduler id_transfer (inl Qnil)]
    = [E_funcall (loop Scenario.ready_struct) id_transfer res]
    /\ Normal Qnil = match res with inl _ => Normal Qnil | inr e => Raised e end
    /\ errno_reads
         [E_funcall Scenario.io id_fileno (inl (Fixnum 5));
          E_epoll_ctl 3 EPOLL_CTL_ADD 5 Scenario.readable_a 0;
          E_funcall Scenario.scheduler id_transfer (inl Qnil)] = []
    /\ dups
         [E_funcall Scenario.io id_fileno (inl (Fixnum 5));
          E_epoll_ctl 3 EPOLL_CTL_ADD 5 Scenario.readable_a 0;
          E_funcall Scenario.scheduler id_transfer (inl Qnil)] = []
    /\ closes
         [E_funcall Scenario.io id_fileno (inl (Fixnum 5));
          E_epoll_ctl 3 EPOLL_CTL_ADD 5 Scenario.readable_a 0;
          E_funcall Scenario.scheduler id_transfer (inl Qnil)] = [].
Proof.
  refine (X6_io_wait_plain_registration Scenario.quiet Scenario.backend
            Scenario.fiber_a Scenario.io (Fixnum READABLE) Scenario.ready_struct []
            (Normal Qnil) Scenario.ready_struct _ 3 EPOLL_CTL_ADD 5 Scenario.readable_a
            0 _ _ _ _).
  - discriminate.
  - reflexivity.
  - reflexivity.
Defined.

(** X7: a first add that fails for another reason than EEXIST is fatal:
    nothing is duplicated, nothing is registered, the loop is not entered,
    and the call raises the SystemCallFailure of "epoll_ctl". *)
Theorem X7_io_wait_add_failure_is_fatal :
  forall (os : OS) self fiber io events s t o s' l epfd op fd ev code rest,
    code <> EEXIST ->
    exec os (Event_Backend_EPoll_io_wait self fiber io events) s t = (o, s', t ++ l) ->
    first_add l = Some (epfd, op, fd, ev, -1, E_errno code :: rest) ->
    exists code',
      rest = [E_errno code']
      /\ o = Raised (SystemCallFailure code' "epoll_ctl")
      /\ dups l = [] /\ registered l = [] /\ transfers l = [].
Proof.
  intros os self fiber io events s t o s' l epfd op fd ev code rest Hcode Hexec Hfirst.
  destruct (io_wait_from_first_add _ _ _ _ _ _ _ _ _ _ _ _ _ _ _ _ Hexec Hfirst)
    as (pre & -> & Hpre & R).
  destruct (after_silent pre (E_epoll_ctl epfd op fd ev (-1) :: E_errno code :: rest) Hpre)
    as (_ & -> & -> & _ & -> & _ & _).
  inversion R; subst; try contradiction.
  exists code'. repeat split.
Qed.

Lemma X7_witness :
  exists code',
    [E_errno Kernel.EBADF] = [E_errno code']
    /\ (Raised (SystemCallError Kernel.EBADF "epoll_ctl") : outcome VALUE)
       = Raised (SystemCallFailure code' "epoll_ctl")
    /\ dups
         [E_funcall Scenario.io id_fileno (inl (Fixnum 5));
          E_epoll_ctl (-1) EPOLL_CTL_ADD 5 Scenario.readable_a (-1);
          E_errno Kernel.EBADF; E_errno Kernel.EBADF] = []
    /\ registered
         [E_funcall Scenario.io id_fileno (inl (Fixnum 5));
          E_epoll_ctl (-1) EPOLL_CTL_ADD 5 Scenario.readable_a (-1);
          E_errno Kernel.EBADF; E_errno Kernel.EBADF] = []
    /\ transfers
         [E_funcall Scenario.io id_fileno (inl (Fixnum 5));
          E_epoll_ctl (-1) EPOLL_CTL_ADD 5 Scenario.readable_a (-1);
          E_errno Kernel.EBADF; E_errno Kernel.EBADF] = [].
Proof.
  refine (X7_io_wait_add_failure_is_fatal Kernel.bad_queue Scenario.backend
            Scenario.fiber_a Scenario.io (Fixnum READABLE)
            {| loop := Scenario.scheduler; descriptor := -1 |} []
            (Raised (SystemCallError Kernel.EBADF "epoll_ctl"))
            {| loop := Scenario.scheduler; descriptor := -1 |} _
            (-1) EPOLL_CTL_ADD 5 Scenario.readable_a Kernel.EBADF _ _ _ _).
  - discriminate.
  - reflexivity.
  - reflexivity.
Defined.

(** ** More on the life of a backend *)

Lemma lifetime_no_initialize (os : OS) cs :
  no_initialize cs = true -> forall s t, fst (lifetime os cs s t) = s.
Proof.
  induction cs as [| c cs IH]; intros Hcs s t; simpl in *; [reflexivity |].
  apply andb_true_iff in Hcs as [Hc Hcs].
  destruct c as [self l | self fiber io events | self duration]; try discriminate;
    simpl perform.
  - pose proof (preserves_io_wait self fiber io events os s t) as Hs.
    destruct (exec os (Event_Backend_EPoll_io_wait self fiber io events) s t)
      as [[o s1] t1]. simpl in Hs. subst s1. now apply IH.
  - pose proof (preserves_select self duration os s t) as Hs.
    destruct (exec os (Event_Backend_EPoll_select self duration) s t)
      as [[o s1] t1]. simpl in Hs. subst s1. now apply IH.
Qed.

(** X8: teardown closes what [initialize] opened.  Whatever [io_wait] and
    [select] calls come in between, [free] closes exactly the descriptor
    that the [epoll_create] of [initialize] returned, once, and closes
    nothing when that call had failed; a backend that was allocated and
    never initialized is torn down without any [close]. *)
Theorem X8_teardown_closes_what_initialize_opened :
  forall (os : OS) cs self l instance s t,
    no_initialize cs = true ->
    (let fd := os _ (epoll_create 1) t in
     let opened := exec os (Event_Backend_EPoll_initialize self l) s t in
     let used := lifetime os cs (snd (fst opened)) (snd opened) in
     descriptor (fst used) = fd /\ loop (fst used) = l
     /\ exists m,
         exec os Event_Backend_EPoll_Type_free (fst used) (snd used)
         = (Normal tt, fst used, snd used ++ m)
         /\ closes m = (if 0 <=? fd then [fd] else []))
    /\
    (let allocated := exec os (Event_Backend_EPoll_allocate instance) zeroed t in
     let used := lifetime os cs (snd (fst allocated)) (snd allocated) in
     exec os Event_Backend_EPoll_Type_free (fst used) (snd used)
     = (Normal tt, fst used, snd used)).
Proof.
  intros os cs self l instance s t Hcs. split.
  - intros fd opened used. subst used opened.
    rewrite exec_initialize. cbn [fst snd].
    rewrite (lifetime_no_initialize os cs Hcs). cbn [descriptor loop].
    split; [reflexivity |]. split; [reflexivity |].
    rewrite exec_free. cbn [descriptor]. fold fd.
    eexists. split; [reflexivity |].
    rewrite Z.geb_leb. destruct (0 <=? fd); reflexivity.
  - intros allocated used. subst used allocated.
    change (exec os (Event_Backend_EPoll_allocate instance) zeroed t)
      with (Normal instance, {| loop := Qnil; descriptor := -1 |}, t).
    cbn [fst snd]. rewrite exec_free, (lifetime_no_initialize os cs Hcs).
    cbn [descriptor]. change (-1 >=? 0) with false. cbv iota.
    now rewrite app_nil_r.
Qed.

Lemma X8_witness :
  let os := Scenario.quiet in
  let cs := [IoWait Scenario.backend Scenario.fiber_a Scenario.io (Fixnum READABLE);
             Select Scenario.backend Qnil] in
  (let fd := os _ (epoll_create 1) [] in
   let opened :=
     exec os (Event_Backend_EPoll_initialize Scenario.backend Scenario.scheduler)
       zeroed [] in
   let used := lifetime os cs (snd (fst opened)) (snd opened) in
   descriptor (fst used) = fd /\ loop (fst used) = Scenario.scheduler
   /\ exists m,
       exec os Event_Backend_EPoll_Type_free (fst used) (snd used)
       = (Normal tt, fst used, snd used ++ m)
       /\ closes m = (if 0 <=? fd then [fd] else []))
  /\
  (let allocated := exec os (Event_Backend_EPoll_allocate Scenario.backend) zeroed [] in
   let used := lifetime os cs (snd (fst allocated)) (snd allocated) in
   exec os Event_Backend_EPoll_Type_free (fst used) (snd used)
   = (Normal tt, fst used, snd used)).
Proof.
  intros os cs.
  refine (X8_teardown_closes_what_initialize_opened os cs Scenario.backend
            Scenario.scheduler Scenario.backend zeroed [] _).
  reflexivity.
Defined.

(** X9: over a backend's whole life, up to and including teardown, the only
    descriptors closed are duplicates that [dup] handed out and the queue
    handle held at teardown.  A queue opened by an earlier [initialize] and
    replaced by a later one is therefore never closed. *)
Theorem X9_only_the_last_queue_is_closed :
  forall (os : OS) cs s x,
    let used := lifetime os cs s [] in
    let whole := snd (exec os Event_Backend_EPoll_Type_free (fst used) (snd used)) in
    In x (closes whole) ->
    x = descriptor (fst used) \/ In x (dups whole).
Proof.
  intros os cs s x used whole Hx. subst whole.
  destruct (lifetime_closes os cs s []) as (l & Hl & Hincl).
  fold used in Hl. simpl in Hl.
  rewrite exec_free in Hx |- *. cbn [snd] in *. rewrite Hl in *.
  unfold closes, dups in *. rewrite flat_map_app' in Hx |- *.
  apply in_app_or in Hx as [Hx | Hx].
  - right. apply in_or_app. left. now apply Hincl.
  - left. destruct (descriptor (fst used) >=? 0); simpl in Hx; [| contradiction].
    destruct Hx as [<- | []]. reflexivity.
Qed.

Lemma X9_witness :
  let used :=
    lifetime Kernel.echo
      [Initialize Scenario.backend Scenario.scheduler;
       Initialize Scenario.backend Scenario.scheduler]
      {| loop := Qnil; descriptor := -1 |} [] in
  let whole :=
    snd (exec Kernel.echo Event_Backend_EPoll_Type_free (fst used) (snd used)) in
  4 = descriptor (fst used) \/ In 4 (dups whole).
Proof.
  intros used whole.
  refine (X9_only_the_last_queue_is_closed Kernel.echo
            [Initialize Scenario.backend Scenario.scheduler;
             Initialize Scenario.backend Scenario.scheduler]
            {| loop := Qnil; descriptor := -1 |} 4 _).
  simpl. now left.
Defined.

(** The run of the witness: queues 3 and 4 are opened, and only 4 is ever
    closed. *)
Example reinitialize_abandons_queue :
  let used :=
    lifetime Kernel.echo
      [Initialize Scenario.backend Scenario.scheduler;
       Initialize Scenario.backend Scenario.scheduler]
      {| loop := Qnil; descriptor := -1 |} [] in
  let whole :=
    snd (exec Kernel.echo Event_Backend_EPoll_Type_free (fst used) (snd used)) in
  created whole = [3; 4] /\ closes whole = [4].
Proof. vm_compute. split; reflexivity. Qed.

(** ** Who gets resumed *)

Lemma io_wait_effect (os : OS) self fiber io events s t :
  snd (fst (exec os (Event_Backend_EPoll_io_wait self fiber io events) s t)) = s
  /\ exists l,
      snd (exec os (Event_Backend_EPoll_io_wait self fiber io events) s t) = t ++ l
      /\ Forall (fun ev => data_ptr ev = fiber) (registered l)
      /\ Forall (fun v => v = loop s) (transfers l).
Proof.
  destruct (exec os (Event_Backend_EPoll_io_wait self fiber io events) s t)
    as [[o s'] t'] eqn:Hexec.
  apply exec_io_wait in Hexec as (-> & l & -> & Hrun). split; [reflexivity |].
  exists l. split; [reflexivity |].
  apply io_wait_run_split in Hrun
    as [[(_ & Hr & _ & _ & Ht & _) _] | (pre & fd & mask & l0 & -> & Hpre & R)].
  - rewrite Hr, Ht. split; constructor.
  - destruct (after_silent pre l0 Hpre) as (_ & -> & _ & _ & -> & _).
    destruct (registration_effect _ _ _ _ _ _ R)
      as (_ & _ & [[-> ->] | (-> & -> & _)] & _); split; repeat constructor.
Qed.

Lemma firstn_incl {A} (n : nat) (l : list A) : incl (firstn n l) l.
Proof.
  intros x Hx. rewrite <- (firstn_skipn n l). apply in_or_app. now left.
Qed.

Lemma skipn_incl {A} (n : nat) (l : list A) : incl (skipn n l) l.
Proof.
  intros x Hx. rewrite <- (firstn_skipn n l). apply in_or_app. now right.
Qed.

Lemma select_effect (os : OS) self duration s t :
  delivers_registered os ->
  snd (fst (exec os (Event_Backend_EPoll_select self duration) s t)) = s
  /\ exists l,
      snd (exec os (Event_Backend_EPoll_select self duration) s t) = t ++ l
      /\ registered l = []
      /\ Forall (fun v => exists ev, In ev (registered t) /\ v = data_ptr ev)
           (transfers l).
Proof.
  intro Hos.
  destruct (exec os (Event_Backend_EPoll_select self duration) s t)
    as [[o s'] t'] eqn:Hexec.
  apply exec_select_run in Hexec as (-> & l & -> & Hrun & Hlink).
  split; [reflexivity |]. exists l. split; [reflexivity |].
  assert (Hloop :
            forall timeout k written o' l0,
              l = E_epoll_wait (descriptor s) EPOLL_MAX_EVENTS timeout k written :: l0 ->
              dispatch written 0 (Z.to_nat k) o' l0 ->
              registered l = []
              /\ Forall (fun v => exists ev, In ev (registered t) /\ v = data_ptr ev)
                   (transfers l)).
  { intros timeout k written o' l0 -> Hd.
    specialize (Hlink _ _ _ _ _ _ eq_refl).
    destruct (dispatch_only_transfers _ _ _ _ _ Hd) as (_ & _ & _ & _ & Hr & _).
    destruct (dispatch_transfers _ _ _ _ _ Hd) as (j & _ & Ht).
    unfold registered, transfers in *. cbn [flat_map registered_event transferred app].
    split; [exact Hr |].
    rewrite Ht. apply Forall_forall. intros v Hv.
    apply in_map_iff in Hv as (w & <- & Hw).
    apply firstn_incl, skipn_incl in Hw.
    destruct (Hos (descriptor s) EPOLL_MAX_EVENTS timeout t w) as (ev & Hev & Heq).
    - now rewrite <- Hlink.
    - exists ev. split; [exact Hev | exact Heq]. }
  inversion Hrun as [ | | to w code Hto | to k w l0 Hto Hk Hd
                    | to k w e l0 Hto Hk Hd | to k w l0 Hto Hk Hd ]; subst;
    try (split; [reflexivity | constructor]);
    eapply Hloop; try reflexivity; eassumption.
Qed.

Lemma resumes_known_step (os : OS) W L c s t :
  delivers_registered os ->
  incl (waiters [c]) W -> incl (loops s [c]) L ->
  resumes_known W L s t ->
  resumes_known W L (snd (fst (exec os (perform c) s t))) (snd (exec os (perform c) s t)).
Proof.
  intros Hos HW HL (Hloop & Hreg & Htr).
  destruct c as [self l | self fiber io events | self duration]; simpl perform.
  - rewrite exec_initialize. cbn [fst snd].
    unfold resumes_known, registered, transfers in *.
    rewrite !flat_map_app'. cbn [flat_map registered_event transferred loop].
    rewrite !app_nil_r.
    split; [| split; assumption].
    apply HL. simpl. right. now left.
  - destruct (io_wait_effect os self fiber io events s t) as (-> & l & -> & Hr & Ht).
    unfold resumes_known, registered, transfers in *. rewrite !flat_map_app'.
    split; [assumption |]. split.
    + apply Forall_app. split; [assumption |].
      eapply Forall_impl; [| exact Hr]. intros ev ->. apply HW. now left.
    + apply Forall_app. split; [assumption |].
      eapply Forall_impl; [| exact Ht]. intros v ->. now right.
  - destruct (select_effect os self duration s t Hos) as (-> & l & -> & Hr & Ht).
    unfold resumes_known, registered, transfers in *. rewrite !flat_map_app'.
    rewrite Hr, app_nil_r.
    split; [assumption |]. split; [assumption |].
    apply Forall_app. split; [assumption |].
    eapply Forall_impl; [| exact Ht]. intros v (ev & Hev & ->). left.
    rewrite Forall_forall in Hreg. now apply Hreg.
Qed.

Lemma resumes_known_lifetime (os : OS) W L :
  delivers_registered os ->
  forall cs s t,
    incl (waiters cs) W -> incl (loops s cs) L ->
    resumes_known W L s t ->
    resumes_known W L (fst (lifetime os cs s t)) (snd (lifetime os cs s t)).
Proof.
  intros Hos cs. induction cs as [| c cs IH]; intros s t HW HL Hinv; simpl.
  - exact Hinv.
  - assert (Hstep := resumes_known_step os W L c s t Hos).
    destruct (exec os (perform c) s t) as [[o s1] t1] eqn:Hexec. simpl in Hstep.
    apply IH.
    + intros x Hx. apply HW. unfold waiters in *. simpl.
      apply in_or_app. now right.
    + assert (Hs1 : In (loop s1) L).
      { apply Hstep; try assumption.
        - intros x Hx. apply HW. unfold waiters in *. simpl in *.
          rewrite app_nil_r in Hx. apply in_or_app. now left.
        - intros x Hx. apply HL. unfold loops in *. simpl in *.
          destruct Hx as [<- | Hx]; [now left |]. right.
          rewrite app_nil_r in Hx. apply in_or_app. now left. }
      intros x [<- | Hx]; [exact Hs1 |].
      apply HL. unfold loops. simpl. right. apply in_or_app. now right.
    + apply Hstep; try assumption.
      * intros x Hx. apply HW. unfold waiters in *. simpl in *.
        rewrite app_nil_r in Hx. apply in_or_app. now left.
      * intros x Hx. apply HL. unfold loops in *. simpl in *.
        destruct Hx as [<- | Hx]; [now left |]. right.
        rewrite app_nil_r in Hx. apply in_or_app. now left.
Qed.

(** X10: only known contexts are ever resumed.  When the queue delivers
    nothing but payloads of entries it accepted, every transfer made over a
    sequence of [initialize], [io_wait] and [select] calls goes into a
    waiter that was handed to an [io_wait] call of the sequence, or into a
    loop the backend was given. *)
Theorem X10_only_registered_waiters_are_resumed :
  forall (os : OS) cs s,
    delivers_registered os ->
    Forall (fun v => In v (waiters cs) \/ In v (loops s cs))
      (transfers (snd (lifetime os cs s []))).
Proof.
  intros os cs s Hos.
  apply (resumes_known_lifetime os (waiters cs) (loops s cs) Hos cs s []).
  - apply incl_refl.
  - apply incl_refl.
  - split; [now left | split; constructor].
Qed.

Lemma echo_delivers_registered : delivers_registered Kernel.echo.
Proof.
  intros epfd maxevents timeout t w Hw. simpl in Hw.
  destruct (maxevents <=? 0); simpl in Hw; [contradiction |].
  exists w. split; [now apply firstn_incl in Hw | reflexivity].
Qed.

Lemma X10_witness :
  let cs := [Initialize Scenario.backend Scenario.scheduler;
             IoWait Scenario.backend Scenario.fiber_a Scenario.io (Fixnum READABLE);
             IoWait Scenario.backend Scenario.fiber_b Scenario.io (Fixnum WRITABLE);
             Select Scenario.backend Qnil] in
  let s := {| loop := Qnil; descriptor := -1 |} in
  Forall (fun v => In v (waiters cs) \/ In v (loops s cs))
    (transfers (snd (lifetime Kernel.echo cs s []))).
Proof.
  intros cs s.
  exact (X10_only_registered_waiters_are_resumed Kernel.echo cs s
           echo_delivers_registered).
Defined.

(** The run of the witness: each [io_wait] transfers into the loop, and the
    [select] then resumes the two waiters in the order they registered. *)
Example echo_resumes_both :
  transfers
    (snd (lifetime Kernel.echo
            [Initialize Scenario.backend Scenario.scheduler;
             IoWait Scenario.backend Scenario.fiber_a Scenario.io (Fixnum READABLE);
             IoWait Scenario.backend Scenario.fiber_b Scenario.io (Fixnum WRITABLE);
             Select Scenario.backend Qnil]
            {| loop := Qnil; descriptor := -1 |} []))
  = [Scenario.scheduler; Scenario.scheduler; Scenario.fiber_a; Scenario.fiber_b].
Proof. reflexivity. Qed.

(** ** More on the timeout codec *)

(** Dropping the fraction of [c * 2^a * 2^-(a+j)] leaves [c / 2^j]. *)
Lemma magnitude_scaled c a j :
  0 < c -> 0 <= a -> 0 < j ->
  CDouble.magnitude (Z.to_pos (c * 2 ^ a)) (- (a + j)) = c / 2 ^ j.
Proof.
  intros Hc Ha Hj. unfold CDouble.magnitude.
  assert (Hp : 0 < 2 ^ a) by (apply Z.pow_pos_nonneg; lia).
  assert (Hpj : 0 < 2 ^ j) by (apply Z.pow_pos_nonneg; lia).
  assert (Hq : 0 < c * 2 ^ a) by (apply Z.mul_pos_pos; assumption).
  destruct (a + j) as [| p | p] eqn:E; try lia. cbn [Z.opp].
  rewrite (Z2Pos.id _ Hq).
  rewrite Z.shiftr_div_pow2, <- E, Z.pow_add_r by lia.
  rewrite (Z.mul_comm (2 ^ a) (2 ^ j)).
  apply Z.div_mul_cancel_r; lia.
Qed.

(** Every double whose value is [n / 8] converts to [125 * n]. *)
Lemma make_timeout_eighths n s m e :
  CInt.INT_MIN <= 125 * n <= CInt.INT_MAX ->
  e <= -3 -> cond_Zopp s (Zpos m) = n * 2 ^ (-3 - e) ->
  make_timeout (Float (S754_finite s m e)) = Normal (125 * n).
Proof.
  intros Hrange He Hm.
  assert (Hin : CInt.in_int (125 * n) = true) by now apply in_int_spec.
  unfold CInt.INT_MIN, CInt.INT_MAX in Hrange.
  assert (Hp : 0 < 2 ^ (-3 - e)) by (apply Z.pow_pos_nonneg; lia).
  set (a := cond_Zopp s n).
  assert (Ha : Zpos m = a * 2 ^ (-3 - e) /\ 0 < a).
  { subst a. destruct s; cbn [cond_Zopp] in *; split; try lia; nia. }
  destruct Ha as [Ha Ha0].
  set (c := a * 1000).
  assert (Hc : 2 ^ 9 <= c < 2 ^ 35) by (subst c a; destruct s; cbn [cond_Zopp] in *; lia).
  assert (Hl : 9 <= Z.log2 c < 35).
  { split; [apply Z.log2_le_pow2 | apply Z.log2_lt_pow2]; lia. }
  unfold make_timeout.
  rewrite (mul_1000_exact s m e c (-3 - e)) by (try rewrite Ha; subst c; lia).
  unfold CDouble.to_int, CDouble.trunc.
  replace (e + (-3 - e) + Z.log2 c - 52) with (- (52 - Z.log2 c + 3)) by lia.
  rewrite magnitude_scaled by lia.
  replace (cond_Zopp s (c / 2 ^ 3)) with (125 * n).
  - now rewrite Hin.
  - subst c a. change (2 ^ 3) with 8. destruct s; cbn [cond_Zopp].
    + replace (- n * 1000) with ((- (125 * n)) * 8) by lia.
      rewrite Z.div_mul by lia. lia.
    + replace (n * 1000) with ((125 * n) * 8) by lia.
      now rewrite Z.div_mul.
Qed.

(** Normalising [p * 2^x], for [p] of at most 53 bits and a small [x],
    only aligns the mantissa. *)
Lemma binary_round_aligned s p x :
  Zpos p < 2 ^ 53 -> -1000 <= x <= 0 ->
  exists m e,
    binary_round CDouble.prec CDouble.emax s p x = S754_finite s m e
    /\ e = Zpos (digits2_pos p) + x - 53
    /\ e <= x
    /\ Zpos m = Zpos p * 2 ^ (x - e).
Proof.
  intros Hmax Hx.
  assert (Hd : 1 <= Zpos (digits2_pos p) <= 53).
  { rewrite digits2_log2.
    assert (0 <= Z.log2 (Zpos p) < 53); [| lia].
    split; [apply Z.log2_nonneg | apply Z.log2_lt_pow2; lia]. }
  pose proof (digits2_log2 p) as Hlog.
  set (d := Zpos (digits2_pos p)) in *.
  unfold binary_round, shl_align. fold d.
  replace (fexp CDouble.prec CDouble.emax (d + x) - x) with (d - 53)
    by (unfold fexp, emin, CDouble.prec, CDouble.emax; lia).
  replace (fexp CDouble.prec CDouble.emax (d + x)) with (d + x - 53)
    by (unfold fexp, emin, CDouble.prec, CDouble.emax; lia).
  destruct (d - 53) as [| k | k] eqn:Hk; try lia.
  - exists p, x. split; [| split; [lia | split; [lia |]]].
    + rewrite (binary_round_aux_exact s p x 0 (Zpos p)); try lia.
      * simpl Z.to_pos. now rewrite Z.add_0_r.
      * change (Zdigits2 (Zpos p)) with d.
        unfold fexp, emin, CDouble.prec, CDouble.emax. lia.
      * unfold CDouble.prec, CDouble.emax. lia.
    + rewrite Z.sub_diag. simpl. lia.
  - exists (Pos.iter xO p k), (d + x - 53).
    assert (Hm : Zpos (Pos.iter xO p k) = Zpos p * 2 ^ (53 - d))
      by (rewrite iter_xO; f_equal; f_equal; lia).
    split; [| split; [reflexivity | split; [lia |]]].
    + rewrite (binary_round_aux_exact s (Pos.iter xO p k) (d + x - 53) 0
                 (Zpos (Pos.iter xO p k))).
      * simpl Z.to_pos. now rewrite Z.add_0_r.
      * rewrite Zdigits2_log2, Hm, Z.log2_mul_pow2 by lia.
        unfold fexp, emin, CDouble.prec, CDouble.emax. lia.
      * lia.
      * lia.
      * lia.
      * unfold CDouble.prec, CDouble.emax. lia.
    + rewrite Hm. f_equal. f_equal. lia.
Qed.

Lemma digits2_bound p b : 0 <= b -> Zpos p < 2 ^ b -> Zpos (digits2_pos p) <= b.
Proof.
  intros Hb Hp. rewrite digits2_log2.
  assert (Z.log2 (Zpos p) < b) by (apply Z.log2_lt_pow2; lia). lia.
Qed.

Lemma make_timeout_normalized n x scale :
  -3 <= x <= 0 -> scale = 2 ^ (x + 3) ->
  CInt.INT_MIN <= 125 * (n * scale) <= CInt.INT_MAX ->
  make_timeout (Float (binary_normalize CDouble.prec CDouble.emax n x false))
  = Normal (125 * (n * scale)).
Proof.
  intros Hx Hscale Hrange.
  assert (Hs : 1 <= scale <= 8).
  { subst scale. split.
    - apply (Z.pow_le_mono_r 2 0 (x + 3)); lia.
    - apply (Z.pow_le_mono_r 2 (x + 3) 3); lia. }
  unfold CInt.INT_MIN, CInt.INT_MAX in Hrange.
  destruct n as [| p | p]; cbn [binary_normalize].
  - reflexivity.
  - destruct (binary_round_aligned false p x) as (m & e & -> & He & Hle & Hm); [lia | lia |].
    assert (Hd : Zpos (digits2_pos p) <= 50) by (apply digits2_bound; lia).
    apply make_timeout_eighths.
    + unfold CInt.INT_MIN, CInt.INT_MAX. lia.
    + lia.
    + cbn [cond_Zopp]. rewrite Hm, Hscale, <- Z.mul_assoc, <- Z.pow_add_r by lia.
      f_equal. f_equal. lia.
  - destruct (binary_round_aligned true p x) as (m & e & -> & He & Hle & Hm); [lia | lia |].
    assert (Hd : Zpos (digits2_pos p) <= 50) by (apply digits2_bound; lia).
    apply make_timeout_eighths.
    + unfold CInt.INT_MIN, CInt.INT_MAX. lia.
    + lia.
    + cbn [cond_Zopp]. rewrite Hm, Hscale.
      change (Zneg p) with (- Zpos p).
      rewrite !Z.mul_opp_l, <- Z.mul_assoc, <- Z.pow_add_r by lia.
      f_equal. f_equal. f_equal. lia.
Qed.

(** X11: binary fractions of a unit convert exactly: the double of value
    [n / 8] (so every whole, half, quarter and eighth of a unit) maps to
    [125 * n] milliseconds whenever that fits an [int], however the double
    is written. *)
Theorem X11_eighths_convert_exactly :
  forall n,
    CInt.INT_MIN <= 125 * n <= CInt.INT_MAX ->
    make_timeout (Float (eighths n)) = Normal (125 * n)
    /\ (forall s m e,
           e <= -3 -> cond_Zopp s (Zpos m) = n * 2 ^ (-3 - e) ->
           make_timeout (Float (S754_finite s m e)) = Normal (125 * n)).
Proof.
  intros n Hrange. split.
  - unfold eighths.
    rewrite (make_timeout_normalized n (-3) 1).
    + f_equal. lia.
    + lia.
    + reflexivity.
    + now rewrite Z.mul_1_r.
  - intros s m e He Hm. now apply make_timeout_eighths.
Qed.

Lemma X11_witness :
  make_timeout (Float (eighths 3)) = Normal (125 * 3)
  /\ (forall s m e,
         e <= -3 -> cond_Zopp s (Zpos m) = 3 * 2 ^ (-3 - e) ->
         make_timeout (Float (S754_finite s m e)) = Normal (125 * 3)).
Proof.
  apply (X11_eighths_convert_exactly 3).
  unfold CInt.INT_MIN, CInt.INT_MAX. lia.
Defined.

(** X12: the float path and the integer path agree on whole numbers: the
    double [N.0] and the integer [N] give the same budget, [N * 1000],
    whenever that fits an [int]. *)
Theorem X12_whole_floats_agree_with_integers :
  forall N,
    CInt.INT_MIN <= N * 1000 <= CInt.INT_MAX ->
    make_timeout (Float (CDouble.of_int N)) = make_timeout (Fixnum N)
    /\ make_timeout (Fixnum N) = Normal (N * 1000).
Proof.
  intros N Hrange.
  assert (Hfix : make_timeout (Fixnum N) = Normal (N * 1000)).
  { rewrite make_timeout_fixnum. f_equal.
    apply wrap_small; [lia |]. unfold CInt.INT_MIN, CInt.INT_MAX in Hrange.
    change (2 ^ (32 - 1)) with (2 ^ 31). lia. }
  split; [| exact Hfix].
  rewrite Hfix. unfold CDouble.of_int.
  rewrite (make_timeout_normalized N 0 8).
  - f_equal. lia.
  - lia.
  - reflexivity.
  - replace (125 * (N * 8)) with (N * 1000) by lia. exact Hrange.
Qed.

Lemma X12_witness :
  make_timeout (Float (CDouble.of_int 2)) = make_timeout (Fixnum 2)
  /\ make_timeout (Fixnum 2) = Normal (2 * 1000).
Proof.
  apply (X12_whole_floats_agree_with_integers 2).
  unfold CInt.INT_MIN, CInt.INT_MAX. lia.
Defined.




